(** * Code generation from symbolic expressions (drake/common/symbolic_codegen.cc)

    A shallow embedding of [CodeGenVisitor], the scalar emitter [CodeGen] and
    the batch emitters [internal::CodeGenData] / [internal::CodeGenMeta].

    - A [double] is a finite binary floating-point value [mant * 2 ^ expo].
    - [std::to_string(double)] is printf ["%f"]; [ostream << double] (default
      flags, precision 6) is printf ["%g"]; both round the exact value to
      nearest, ties to even, as glibc does in the default rounding mode.
    - [CodeGenVisitor::IdToIndexMap] is a [gmap] from variable ids to indices.
    - A thrown [std::runtime_error] is an [Err] of [result]; an [ostream*]
      sink is the text written so far, threaded by the [Sink] monad. *)

From Stdlib Require Import ZArith QArith Qabs Lqa String Ascii.
From stdpp Require Import base gmap strings list.

Open Scope string_scope.
Open Scope Z_scope.
Set Warnings "-register-all".
(** stdpp makes [String.append] opaque to [simpl]; computing with the
    emitted text needs it back. *)
#[local] Arguments String.append : simpl nomatch.

(* ------------------------------------------------------------------ *)
(** ** Decimal printing of integers *)

Definition digit_char (d : Z) : ascii := ascii_of_nat (48 + Z.to_nat d).

(** Digits of [n >= 0] without leading zeros, prepended to [acc]. *)
Fixpoint dec_aux (fuel : nat) (n : Z) (acc : string) : string :=
  match fuel with
  | O => acc
  | S f =>
      let acc' := String (digit_char (n mod 10)) acc in
      if n / 10 =? 0 then acc' else dec_aux f (n / 10) acc'
  end.

Definition dec_nonneg (n : Z) : string :=
  dec_aux (S (Z.to_nat (Z.log2 n))) n "".

(** [std::to_string(int)] and [ostream << int]. *)
Definition int_to_string (n : Z) : string :=
  if n <? 0 then "-" ++ dec_nonneg (- n) else dec_nonneg n.

(** Exactly [k] digits: [n mod 10 ^ k], zero padded. *)
Fixpoint fixed_digits (k : nat) (n : Z) : string :=
  match k with
  | O => ""
  | S k' => fixed_digits k' (n / 10) ++ String (digit_char (n mod 10)) ""
  end.

(** Drops trailing ['0'] characters ([%g] removes trailing zeros). *)
Fixpoint strip_trailing_zeros (s : string) : string :=
  match s with
  | EmptyString => EmptyString
  | String c rest =>
      let r := strip_trailing_zeros rest in
      if String.eqb r "" && Ascii.eqb c "0"%char then "" else String c r
  end.

Definition nl : string := String (ascii_of_nat 10) "".

(* ------------------------------------------------------------------ *)
(** ** Finite doubles and their two text renderings *)

Record double := mk_double { mant : Z; expo : Z }.

(** A finite IEEE-754 binary64 value: 53-bit significand, exponent range. *)
Definition is_finite_double (x : double) : bool :=
  (Z.abs (mant x) <? 2 ^ 53) && (-1074 <=? expo x) && (expo x <=? 971).

(** The exact value [dnum x / dden x]. *)
Definition dnum (x : double) : Z := mant x * 2 ^ Z.max (expo x) 0.
Definition dden (x : double) : Z := 2 ^ Z.max (- expo x) 0.
Definition double_value (x : double) : Q := Qmake (dnum x) (Z.to_pos (dden x)).

(** C++ [==] on doubles: equality of values. *)
Definition double_eqb (x y : double) : bool := dnum x * dden y =? dnum y * dden x.

Definition d_of_Z (n : Z) : double := mk_double n 0.

(** [a / b] rounded to nearest, ties to even ([a >= 0], [b > 0]). *)
Definition round_div_even (a b : Z) : Z :=
  let q := a / b in
  let r := a mod b in
  if 2 * r <? b then q
  else if b <? 2 * r then q + 1
  else if Z.even q then q else q + 1.

Definition sign_text (x : double) : string := if mant x <? 0 then "-" else "".

(** [std::to_string(double)]: printf ["%f"], six digits after the point. *)
Definition to_string_double (x : double) : string :=
  let n := round_div_even (Z.abs (dnum x) * 10 ^ 6) (dden x) in
  sign_text x ++ dec_nonneg (n / 10 ^ 6) ++ "." ++ fixed_digits 6 (n mod 10 ^ 6).

(** [10 ^ k * den <= num] for any integer [k]. *)
Definition pow10_le (k num den : Z) : bool :=
  if 0 <=? k then 10 ^ k * den <=? num else den <=? num * 10 ^ (- k).

(** [floor (log10 (num / den))] for [num, den > 0]. *)
Definition floor_log10 (num den : Z) : Z :=
  let k := Z.of_nat (String.length (dec_nonneg num))
           - Z.of_nat (String.length (dec_nonneg den)) in
  if pow10_le k num den then k else k - 1.

Definition exponent_text (x : Z) : string :=
  (if x <? 0 then "e-" else "e+") ++ (if Z.abs x <? 10 then "0" else "")
  ++ dec_nonneg (Z.abs x).

Definition point_frac (frac : string) : string :=
  if String.eqb frac "" then "" else "." ++ frac.

(** [ostream << double] with default flags: printf ["%g"], precision 6. *)
Definition fmt_g (x : double) : string :=
  let num := Z.abs (dnum x) in
  let den := dden x in
  if num =? 0 then "0" else
  let x0 := floor_log10 num den in
  let n0 := if 0 <=? 5 - x0 then round_div_even (num * 10 ^ (5 - x0)) den
            else round_div_even num (den * 10 ^ (x0 - 5)) in
  let '(n, X) := if n0 =? 10 ^ 6 then (10 ^ 5, x0 + 1) else (n0, x0) in
  if (-4 <=? X) && (X <? 6) then
    sign_text x ++ dec_nonneg (n / 10 ^ (5 - X))
    ++ point_frac (strip_trailing_zeros (fixed_digits (Z.to_nat (5 - X)) (n mod 10 ^ (5 - X))))
  else
    sign_text x ++ dec_nonneg (n / 10 ^ 5)
    ++ point_frac (strip_trailing_zeros (fixed_digits 5 (n mod 10 ^ 5)))
    ++ exponent_text X.

(* ------------------------------------------------------------------ *)
(** ** Symbolic expressions (the external [Expression] kinds) *)

(** [symbolic::Variable]; codegen only reads [get_id()]. *)
Record variable := mk_variable { var_id : N; var_name : string }.

Inductive UnaryKind :=
| KAbs | KLog | KExp | KSqrt | KSin | KCos | KTan | KAsin | KAcos | KAtan
| KSinh | KCosh | KTanh | KCeil | KFloor.

Inductive BinaryKind := KPow | KAtan2 | KMin | KMax.

(** The term map of an addition and the factor map of a multiplication are
    [std::map]s; they are given here in their iteration order.  The
    condition of an if-then-else is a [Formula] that codegen never reads. *)
Inductive Expression :=
| EVariable (v : variable)
| EConstant (c : double)
| EAddition (c : double) (expr_to_coeff_map : list (Expression * double))
| EMultiplication (c : double) (base_to_exponent_map : list (Expression * Expression))
| EDivision (e1 e2 : Expression)
| EUnary (k : UnaryKind) (e : Expression)
| EBinary (k : BinaryKind) (e1 e2 : Expression)
| EIfThenElse (cond : string) (e_then e_else : Expression)
| EUninterpretedFunction (name : string) (args : list Expression).

Definition one : double := d_of_Z 1.

(** [symbolic::is_one]: a constant expression equal to [1.0]. *)
Definition is_one (e : Expression) : bool :=
  match e with EConstant c => double_eqb c one | _ => false end.

(* ------------------------------------------------------------------ *)
(** ** Results: [std::runtime_error] as an error value *)

(** ["Variable index is not found."] is [UnboundVariable]; the two
    ["Codegen does not support ..."] errors are [UnsupportedConstruct]. *)
Inductive CodeGenError :=
| UnboundVariable
| UnsupportedConstruct (what : string).

Inductive result (A : Type) := Ok (a : A) | Err (err : CodeGenError).
Arguments Ok {A} a.
Arguments Err {A} err.

Definition rbind {A B} (r : result A) (k : A -> result B) : result B :=
  match r with Ok a => k a | Err e => Err e end.

Notation "'let*' x := r 'in' k" := (rbind r (fun x => k))
  (at level 200, x name, r at level 100, k at level 200).

(* ------------------------------------------------------------------ *)
(** ** [CodeGenVisitor] *)

(** [CodeGenVisitor::IdToIndexMap]: [unordered_map<Variable::Id, int>]. *)
Abbreviation IdToIndexMap := (gmap N nat).

Definition unary_fn_name (k : UnaryKind) : string :=
  match k with
  | KAbs => "fabs" | KLog => "log" | KExp => "exp" | KSqrt => "sqrt"
  | KSin => "sin" | KCos => "cos" | KTan => "tan" | KAsin => "asin"
  | KAcos => "acos" | KAtan => "atan" | KSinh => "sinh" | KCosh => "cosh"
  | KTanh => "tanh" | KCeil => "ceil" | KFloor => "floor"
  end.

Definition binary_fn_name (k : BinaryKind) : string :=
  match k with KPow => "pow" | KAtan2 => "atan2" | KMin => "fmin" | KMax => "fmax" end.

Module CodeGenVisitor.

(** [CodeGenVisitor::CodeGen], i.e. [VisitExpression] dispatching to the
    [Visit*] methods.  Operands are lowered left to right. *)
Fixpoint CodeGen (id_to_idx_map : IdToIndexMap) (e : Expression) : result string :=
  match e with
  | EVariable v =>
      match id_to_idx_map !! var_id v with
      | None => Err UnboundVariable
      | Some i => Ok ("p[" ++ int_to_string (Z.of_nat i) ++ "]")
      end
  | EConstant c => Ok (to_string_double c)
  | EAddition c expr_to_coeff_map =>
      let fix terms (l : list (Expression * double)) : result string :=
        match l with
        | [] => Ok ""
        | (e_i, c_i) :: l' =>
            let* s_i := CodeGen id_to_idx_map e_i in
            let* rest := terms l' in
            Ok (" + " ++ (if double_eqb c_i one then s_i
                          else "(" ++ fmt_g c_i ++ " * " ++ s_i ++ ")") ++ rest)
        end in
      let* body := terms expr_to_coeff_map in
      Ok ("(" ++ fmt_g c ++ body ++ ")")
  | EMultiplication c base_to_exponent_map =>
      let fix factors (l : list (Expression * Expression)) : result string :=
        match l with
        | [] => Ok ""
        | (e_1, e_2) :: l' =>
            let* s_i :=
              (if is_one e_2 then CodeGen id_to_idx_map e_1
               else let* s1 := CodeGen id_to_idx_map e_1 in
                    let* s2 := CodeGen id_to_idx_map e_2 in
                    Ok ("pow(" ++ s1 ++ ", " ++ s2 ++ ")")) in
            let* rest := factors l' in
            Ok (" * " ++ s_i ++ rest)
        end in
      let* body := factors base_to_exponent_map in
      Ok ("(" ++ fmt_g c ++ body ++ ")")
  | EDivision e1 e2 =>
      let* s1 := CodeGen id_to_idx_map e1 in
      let* s2 := CodeGen id_to_idx_map e2 in
      Ok ("(" ++ s1 ++ " / " ++ s2 ++ ")")
  | EUnary k e1 =>
      let* s1 := CodeGen id_to_idx_map e1 in
      Ok (unary_fn_name k ++ "(" ++ s1 ++ ")")
  | EBinary k e1 e2 =>
      let* s1 := CodeGen id_to_idx_map e1 in
      let* s2 := CodeGen id_to_idx_map e2 in
      Ok (binary_fn_name k ++ "(" ++ s1 ++ ", " ++ s2 ++ ")")
  | EIfThenElse _ _ _ =>
      Err (UnsupportedConstruct "Codegen does not support if-then-else expressions.")
  | EUninterpretedFunction _ _ =>
      Err (UnsupportedConstruct "Codegen does not support uninterpreted functions.")
  end.

End CodeGenVisitor.

(* ------------------------------------------------------------------ *)
(** ** The parameter map and the emitters *)

(** [unordered_map::emplace]: no effect when the key is already present. *)
Definition emplace (k : N) (v : nat) (m : IdToIndexMap) : IdToIndexMap :=
  match m !! k with Some _ => m | None => <[k := v]> m end.

Fixpoint build_map_from (i : nat) (parameters : list variable) (m : IdToIndexMap)
  : IdToIndexMap :=
  match parameters with
  | [] => m
  | p :: ps => build_map_from (S i) ps (emplace (var_id p) i m)
  end.

(** The loop [for i: id_to_idx_map.emplace(parameters[i].get_id(), i)]. *)
Definition build_id_to_idx_map (parameters : list variable) : IdToIndexMap :=
  build_map_from 0 parameters ∅.

Definition scalar_meta_text (function_name : string) (parameter_count : Z) : string :=
  "typedef struct {" ++ nl ++
  "    /* p: input, vector */" ++ nl ++
  "    struct { int size; } p;" ++ nl ++
  "} " ++ function_name ++ "_meta_t;" ++ nl ++
  function_name ++ "_meta_t " ++ function_name ++ "_meta() { return {{" ++
  int_to_string parameter_count ++ "}}; }" ++ nl.

(** [symbolic::CodeGen(function_name, parameters, e)]: the text is built in
    a local [ostringstream], so an exception returns nothing. *)
Definition CodeGen (function_name : string) (parameters : list variable)
    (e : Expression) : result string :=
  let id_to_idx_map := build_id_to_idx_map parameters in
  let* body := CodeGenVisitor.CodeGen id_to_idx_map e in
  Ok ("double " ++ function_name ++ "(const double* p) {" ++ nl ++
      "    return " ++ body ++ ";" ++ nl ++
      "}" ++ nl ++
      scalar_meta_text function_name (Z.of_nat (length parameters))).

(* ------------------------------------------------------------------ *)
(** ** The [ostream*] sink: state (text written so far) and exceptions *)

(** A computation on the sink: it appends to the text already written and
    either returns a value or throws; text written before a throw stays. *)
Definition Sink (A : Type) : Type := string -> string * result A.

Definition sink_ret {A} (a : A) : Sink A := fun os => (os, Ok a).

Definition sink_bind {A B} (m : Sink A) (k : A -> Sink B) : Sink B :=
  fun os => match m os with
            | (os', Ok a) => k a os'
            | (os', Err e) => (os', Err e)
            end.

Notation "x <-- m ;; k" := (sink_bind m (fun x => k))
  (at level 100, m at level 99, right associativity).
Notation "m ;;; k" := (sink_bind m (fun _ : unit => k))
  (at level 100, right associativity).

(** [os << s]. *)
Definition write (s : string) : Sink unit := fun os => (os ++ s, Ok tt).

(** A lowering whose exception propagates through the sink computation. *)
Definition lift {A} (r : result A) : Sink A := fun os => (os, r).

Module internal.

(** The loop [for (int i = 0; i < size; ++i)] of [CodeGenData] over the
    [size] expressions at [data]; [i] is the index of the head of [rest].
    In [os << "    " << "m[" << i << "] = " << visitor.CodeGen(data[i])]
    the left operands are written before the right one is evaluated. *)
Fixpoint emit_assignments (id_to_idx_map : IdToIndexMap) (i : nat)
    (rest : list Expression) : Sink unit :=
  match rest with
  | [] => sink_ret tt
  | d :: rest' =>
      write ("    " ++ "m[" ++ int_to_string (Z.of_nat i) ++ "] = ") ;;;
      s <-- lift (CodeGenVisitor.CodeGen id_to_idx_map d) ;;
      write (s ++ ";" ++ nl) ;;;
      emit_assignments id_to_idx_map (S i) rest'
  end.

(** [internal::CodeGenData(function_name, parameters, data, size, os)]; the
    array [data] of [size] elements is the list [data]. *)
Definition data_header_text (function_name : string) : string :=
  "void " ++ function_name ++ "(const double* p, double* m) {" ++ nl.

Definition assignment_text (i : nat) (s : string) : string :=
  "    " ++ "m[" ++ int_to_string (Z.of_nat i) ++ "] = " ++ s ++ ";" ++ nl.

Definition CodeGenData (function_name : string) (parameters : list variable)
    (data : list Expression) : Sink unit :=
  write (data_header_text function_name) ;;;
  emit_assignments (build_id_to_idx_map parameters) 0 data ;;;
  write ("}" ++ nl).

Definition meta_typedef_text (function_name : string) : string :=
  "typedef struct {" ++ nl ++
  "    /* p: input, vector */" ++ nl ++
  "    struct { int size; } p;" ++ nl ++
  "    /* m: output, matrix */" ++ nl ++
  "    struct { int rows; int cols; } m;" ++ nl ++
  "} " ++ function_name ++ "_meta_t;" ++ nl.

Definition meta_accessor_text (function_name : string) (parameter_size rows cols : Z)
  : string :=
  function_name ++ "_meta_t " ++ function_name ++ "_meta() { return {{" ++
  int_to_string parameter_size ++ "}, {" ++ int_to_string rows ++ ", " ++
  int_to_string cols ++ "}}; }" ++ nl.

(** [internal::CodeGenMeta(function_name, parameter_size, rows, cols, os)]. *)
Definition CodeGenMeta (function_name : string) (parameter_size rows cols : Z)
  : Sink unit :=
  write (meta_typedef_text function_name) ;;;
  write (meta_accessor_text function_name parameter_size rows cols).

End internal.

(** A batch request as a caller issues it: [CodeGenData] over the flattened
    data, then [CodeGenMeta] with [parameters.size()] and the shape. *)
Definition CodeGenBatch (function_name : string) (parameters : list variable)
    (data : list Expression) (rows cols : Z) : Sink unit :=
  internal.CodeGenData function_name parameters data ;;;
  internal.CodeGenMeta function_name (Z.of_nat (length parameters)) rows cols.

(** Modelled from the spec: the batch entry point takes the data as a
    rows x cols dense array of expressions in a fixed flattened order.  Its
    caller [CodeGen(function_name, parameters, M, os)] in the header (not
    in src/) takes a dense matrix [M] and passes [M.data()] with the size
    [M.cols() * M.rows()] to [CodeGenData], then [M.rows()] and [M.cols()]
    to [CodeGenMeta]. *)
Record ExpressionMatrix := mk_matrix {
  mat_rows : Z;
  mat_cols : Z;
  mat_data : list Expression;
  mat_rows_nonneg : 0 <= mat_rows;
  mat_cols_nonneg : 0 <= mat_cols;
  mat_shape : Z.of_nat (length mat_data) = mat_rows * mat_cols
}.

Definition CodeGen_matrix (function_name : string) (parameters : list variable)
    (M : ExpressionMatrix) : Sink unit :=
  internal.CodeGenData function_name parameters
    (firstn (Z.to_nat (mat_cols M * mat_rows M)) (mat_data M)) ;;;
  internal.CodeGenMeta function_name (Z.of_nat (length parameters)) (mat_rows M) (mat_cols M).

(* ------------------------------------------------------------------ *)
(** ** Predicates used in the statements *)

(** The expression contains an if-then-else or an uninterpreted function. *)
Fixpoint has_unsupported (e : Expression) : bool :=
  match e with
  | EVariable _ | EConstant _ => false
  | EAddition _ l => existsb (fun '(e_i, _) => has_unsupported e_i) l
  | EMultiplication _ l =>
      existsb (fun '(e_1, e_2) => has_unsupported e_1 || has_unsupported e_2) l
  | EDivision e1 e2 | EBinary _ e1 e2 => has_unsupported e1 || has_unsupported e2
  | EUnary _ e1 => has_unsupported e1
  | EIfThenElse _ _ _ | EUninterpretedFunction _ _ => true
  end.

(** Every variable the expression mentions is bound in the map. *)
Fixpoint vars_bound (m : IdToIndexMap) (e : Expression) : bool :=
  match e with
  | EVariable v => bool_decide (is_Some (m !! var_id v))
  | EConstant _ => true
  | EAddition _ l => forallb (fun '(e_i, _) => vars_bound m e_i) l
  | EMultiplication _ l =>
      forallb (fun '(e_1, e_2) => vars_bound m e_1 && vars_bound m e_2) l
  | EDivision e1 e2 | EBinary _ e1 e2 => vars_bound m e1 && vars_bound m e2
  | EUnary _ e1 => vars_bound m e1
  | EIfThenElse _ e1 e2 => vars_bound m e1 && vars_bound m e2
  | EUninterpretedFunction _ args => forallb (vars_bound m) args
  end.

(** The text of the lowered terms of an addition (the inner loop). *)
Fixpoint addition_terms (m : IdToIndexMap) (l : list (Expression * double)) : result string :=
  match l with
  | [] => Ok ""
  | (e_i, c_i) :: l' =>
      let* s_i := CodeGenVisitor.CodeGen m e_i in
      let* rest := addition_terms m l' in
      Ok (" + " ++ (if double_eqb c_i one then s_i
                    else "(" ++ fmt_g c_i ++ " * " ++ s_i ++ ")") ++ rest)
  end.

(** The text of the lowered factors of a multiplication (the inner loop). *)
Fixpoint multiplication_factors (m : IdToIndexMap) (l : list (Expression * Expression))
  : result string :=
  match l with
  | [] => Ok ""
  | (e_1, e_2) :: l' =>
      let* s_i :=
        (if is_one e_2 then CodeGenVisitor.CodeGen m e_1
         else let* s1 := CodeGenVisitor.CodeGen m e_1 in
              let* s2 := CodeGenVisitor.CodeGen m e_2 in
              Ok ("pow(" ++ s1 ++ ", " ++ s2 ++ ")")) in
      let* rest := multiplication_factors m l' in
      Ok (" * " ++ s_i ++ rest)
  end.

(** Nested induction over expressions. *)
Section ExpressionInd.
Variable P : Expression -> Prop.
Hypothesis HVar : forall v, P (EVariable v).
Hypothesis HConst : forall c, P (EConstant c).
Hypothesis HAdd : forall c l, Forall (fun t => P t.1) l -> P (EAddition c l).
Hypothesis HMul : forall c l, Forall (fun t => P t.1 /\ P t.2) l -> P (EMultiplication c l).
Hypothesis HDiv : forall e1 e2, P e1 -> P e2 -> P (EDivision e1 e2).
Hypothesis HUn : forall k e1, P e1 -> P (EUnary k e1).
Hypothesis HBin : forall k e1 e2, P e1 -> P e2 -> P (EBinary k e1 e2).
Hypothesis HIte : forall c e1 e2, P e1 -> P e2 -> P (EIfThenElse c e1 e2).
Hypothesis HUf : forall n args, Forall P args -> P (EUninterpretedFunction n args).

Fixpoint expression_ind' (e : Expression) : P e :=
  match e with
  | EVariable v => HVar v
  | EConstant c => HConst c
  | EAddition c l =>
      HAdd c l ((fix go (l : list (Expression * double)) :=
                   match l return Forall (fun t => P t.1) l with
                   | [] => @List.Forall_nil _ _
                   | (e1, c1) :: l' => @List.Forall_cons _ _ (e1, c1) l' (expression_ind' e1) (go l')
                   end) l)
  | EMultiplication c l =>
      HMul c l ((fix go (l : list (Expression * Expression)) :=
                   match l return Forall (fun t => P t.1 /\ P t.2) l with
                   | [] => @List.Forall_nil _ _
                   | (e1, e2) :: l' =>
                       @List.Forall_cons _ _ (e1, e2) l'
                         (conj (expression_ind' e1) (expression_ind' e2)) (go l')
                   end) l)
  | EDivision e1 e2 => HDiv e1 e2 (expression_ind' e1) (expression_ind' e2)
  | EUnary k e1 => HUn k e1 (expression_ind' e1)
  | EBinary k e1 e2 => HBin k e1 e2 (expression_ind' e1) (expression_ind' e2)
  | EIfThenElse c e1 e2 => HIte c e1 e2 (expression_ind' e1) (expression_ind' e2)
  | EUninterpretedFunction n args =>
      HUf n args ((fix go (l : list Expression) :=
                     match l return Forall P l with
                     | [] => @List.Forall_nil _ _
                     | a :: l' => @List.Forall_cons _ _ a l' (expression_ind' a) (go l')
                     end) args)
  end.

End ExpressionInd.

(* ------------------------------------------------------------------ *)
(** ** Reading a constant's text back ([strtod]) *)

Definition is_digit (c : ascii) : bool :=
  (48 <=? nat_of_ascii c)%nat && (nat_of_ascii c <=? 57)%nat.

Definition digit_val (c : ascii) : Z := Z.of_nat (nat_of_ascii c) - 48.

(** Reads a run of decimal digits into [acc]; also counts them. *)
Fixpoint read_digits (s : string) (acc : Z) (k : nat) : Z * nat * string :=
  match s with
  | String c rest =>
      if is_digit c then read_digits rest (10 * acc + digit_val c) (S k) else (acc, k, s)
  | EmptyString => (acc, k, s)
  end.

(** The value of a whole numeral [[-]digits[.digits]], the fixed-point form
    that ["%f"] prints; [None] on anything else. *)
Definition parse_decimal (s : string) : option Q :=
  let '(neg, body) :=
    match s with
    | String c r => if Ascii.eqb c "-"%char then (true, r) else (false, s)
    | EmptyString => (false, s)
    end in
  let sgn := if neg then (-1)%Z else 1%Z in
  let '(ip, ni, s2) := read_digits body 0 0 in
  if (ni =? 0)%nat then None else
  match s2 with
  | EmptyString => Some (inject_Z (sgn * ip))
  | String c s3 =>
      if Ascii.eqb c "."%char then
        let '(fp, nf, s4) := read_digits s3 0 0 in
        if String.eqb s4 "" then
          Some (inject_Z sgn * (inject_Z ip + Qmake fp (Z.to_pos (10 ^ Z.of_nat nf))))%Q
        else None
      else None
  end.

(** [strtod] reading the numeral [s] returns [v]: [v] is a finite double
    nearest to the numeral's value (round to nearest). *)
Definition strtod_rel (s : string) (v : double) : Prop :=
  exists q, parse_decimal s = Some q /\ is_finite_double v = true /\
    forall w, is_finite_double w = true ->
      (Qabs (double_value v - q) <= Qabs (double_value w - q))%Q.

(* ------------------------------------------------------------------ *)
(** ** Bracket structure of emitted C text *)

(** The closing bracket that an opening ['('], ['['] or ['{'] calls for. *)
Definition closer_of (c : ascii) : option ascii :=
  if Ascii.eqb c "("%char then Some ")"%char
  else if Ascii.eqb c "["%char then Some "]"%char
  else if Ascii.eqb c "{"%char then Some "}"%char
  else None.

Definition is_closer (c : ascii) : bool :=
  Ascii.eqb c ")"%char || Ascii.eqb c "]"%char || Ascii.eqb c "}"%char.

(** Scans [s] with the stack of pending closers; [None] on a mismatch. *)
Fixpoint match_brackets (s : string) (stack : list ascii) : option (list ascii) :=
  match s with
  | EmptyString => Some stack
  | String c r =>
      match closer_of c with
      | Some c' => match_brackets r (c' :: stack)
      | None =>
          if is_closer c then
            match stack with
            | t :: st => if Ascii.eqb t c then match_brackets r st else None
            | [] => None
            end
          else match_brackets r stack
      end
  end.

(** Every bracket of [s] is closed, by one of its kind, in nesting order. *)
Definition balanced (s : string) : bool :=
  match match_brackets s [] with Some [] => true | _ => false end.

(** [s] leaves any stack of pending closers as it found it. *)
Definition bracket_neutral (s : string) : Prop :=
  forall st, match_brackets s st = Some st.

(** [s] holds none of the six bracket characters. *)
Fixpoint no_brackets (s : string) : bool :=
  match s with
  | EmptyString => true
  | String c r =>
      negb (is_closer c) && match closer_of c with None => true | Some _ => false end
      && no_brackets r
  end.

(* ------------------------------------------------------------------ *)
(** ** Sample inputs *)

Definition var_x : variable := mk_variable 0 "x".
Definition var_y : variable := mk_variable 1 "y".
Definition var_z : variable := mk_variable 2 "z".
(** A second variable object carrying the identity of [var_x]. *)
Definition var_x_again : variable := mk_variable 0 "x_copy".

(** The 2 x 1 matrix [[x + y; x * y]]. *)
Definition matrix_sum_prod : ExpressionMatrix :=
  mk_matrix 2 1
    [EAddition (d_of_Z 0) [(EVariable var_x, one); (EVariable var_y, one)];
     EMultiplication one [(EVariable var_x, EConstant one); (EVariable var_y, EConstant one)]]
    ltac:(lia) ltac:(lia) eq_refl.

(** A string of decimal digits, and the number it denotes after [acc]. *)
Fixpoint all_digits (s : string) : bool :=
  match s with EmptyString => true | String c r => is_digit c && all_digits r end.

Fixpoint digits_fold (s : string) (acc : Z) : Z :=
  match s with EmptyString => acc | String c r => digits_fold r (10 * acc + digit_val c) end.

(** A sink computation appends a text that does not depend on what the
    sink already holds. *)
Definition sink_appends {A} (c : Sink A) (w : string) (r : result A) : Prop :=
  forall os, c os = (os ++ w, r).

(* ------------------------------------------------------------------ *)
(** ** Checks of the number formatting against printf *)

Example fmt_g_samples :
  fmt_g (d_of_Z 2) = "2" /\ fmt_g (mk_double 3 (-1)) = "1.5" /\
  fmt_g (d_of_Z 123456789) = "1.23457e+08" /\ fmt_g (mk_double 1 (-20)) = "9.53674e-07" /\
  fmt_g (d_of_Z (-100000)) = "-100000" /\ fmt_g (d_of_Z 1000000) = "1e+06".
Proof. vm_compute. repeat split. Qed.

Example to_string_samples :
  to_string_double (d_of_Z 2) = "2.000000" /\
  to_string_double (mk_double (-3) (-1)) = "-1.500000" /\
  to_string_double (mk_double 1 (-20)) = "0.000001" /\
  to_string_double (d_of_Z 1234567) = "1234567.000000".
Proof. vm_compute. repeat split. Qed.

(* ------------------------------------------------------------------ *)
(** ** Unfolding lemmas *)

Lemma str_app_assoc (a b c : string) : (a ++ b) ++ c = a ++ (b ++ c).
Proof. induction a as [|ch a IH]; [reflexivity | simpl; rewrite IH; reflexivity]. Qed.

Lemma str_app_nil (a : string) : a ++ "" = a.
Proof. induction a as [|ch a IH]; [reflexivity | simpl; rewrite IH; reflexivity]. Qed.

(** Normalises string concatenations to a right-nested form. *)
Ltac str_norm := repeat progress (rewrite ?str_app_assoc, ?str_app_nil; simpl).

Lemma rbind_Ok {A B} (r : result A) (k : A -> result B) (b : B) :
  rbind r k = Ok b <-> exists a, r = Ok a /\ k a = Ok b.
Proof.
  destruct r as [a|e]; simpl; split.
  - intros H. eauto.
  - intros (a' & Ha & Hk). injection Ha as <-. exact Hk.
  - discriminate.
  - intros (a' & Ha & _). discriminate.
Qed.

Lemma CodeGen_addition (m : IdToIndexMap) c l :
  CodeGenVisitor.CodeGen m (EAddition c l) =
  let* body := addition_terms m l in Ok ("(" ++ fmt_g c ++ body ++ ")").
Proof.
  simpl. f_equal.
  induction l as [|[e_i c_i] l IH]; simpl; [reflexivity|].
  rewrite IH. reflexivity.
Qed.

Lemma CodeGen_multiplication (m : IdToIndexMap) c l :
  CodeGenVisitor.CodeGen m (EMultiplication c l) =
  let* body := multiplication_factors m l in Ok ("(" ++ fmt_g c ++ body ++ ")").
Proof.
  simpl. f_equal.
  induction l as [|[e_1 e_2] l IH]; simpl; [reflexivity|].
  rewrite IH. reflexivity.
Qed.

Lemma addition_terms_Ok (m : IdToIndexMap) l s :
  addition_terms m l = Ok s <->
  exists ts,
    Forall2 (fun t u => exists s_i, CodeGenVisitor.CodeGen m t.1 = Ok s_i /\
               u = if double_eqb t.2 one then s_i
                   else "(" ++ fmt_g t.2 ++ " * " ++ s_i ++ ")") l ts /\
    s = foldr (fun u acc => " + " ++ u ++ acc) "" ts.
Proof.
  revert s. induction l as [|[e_i c_i] l IH]; intros s; simpl.
  - split.
    + intros H. injection H as <-. exists []. split; [constructor | reflexivity].
    + intros (ts & Hts & ->). inversion Hts. reflexivity.
  - rewrite rbind_Ok. split.
    + intros (s_i & Hi & Hk). apply rbind_Ok in Hk as (rest & Hr & Hk).
      injection Hk as <-. apply IH in Hr as (ts & Hts & ->).
      eexists (_ :: ts). split; [constructor; [exists s_i; split; eauto|exact Hts]|].
      reflexivity.
    + intros (ts & Hts & ->). inversion Hts as [|t u l1 ts0 (s_i & Hi & ->) Hts0]; subst.
      exists s_i. split; [exact Hi|]. apply rbind_Ok.
      exists (foldr (fun u acc => " + " ++ u ++ acc) "" ts0).
      split; [apply IH; eauto | reflexivity].
Qed.

Lemma multiplication_factors_Ok (m : IdToIndexMap) l s :
  multiplication_factors m l = Ok s <->
  exists ts,
    Forall2 (fun t u =>
               if is_one t.2 then CodeGenVisitor.CodeGen m t.1 = Ok u
               else exists s1 s2, CodeGenVisitor.CodeGen m t.1 = Ok s1 /\
                      CodeGenVisitor.CodeGen m t.2 = Ok s2 /\
                      u = "pow(" ++ s1 ++ ", " ++ s2 ++ ")") l ts /\
    s = foldr (fun u acc => " * " ++ u ++ acc) "" ts.
Proof.
  revert s. induction l as [|[e_1 e_2] l IH]; intros s; simpl.
  - split.
    + intros H. injection H as <-. exists []. split; [constructor | reflexivity].
    + intros (ts & Hts & ->). inversion Hts. reflexivity.
  - rewrite rbind_Ok. split.
    + intros (s_i & Hi & Hk). apply rbind_Ok in Hk as (rest & Hr & Hk).
      injection Hk as <-. apply IH in Hr as (ts & Hts & ->).
      exists (s_i :: ts). split; [|reflexivity]. constructor; [|exact Hts].
      simpl. destruct (is_one e_2); [exact Hi|].
      apply rbind_Ok in Hi as (s1 & H1 & Hi). apply rbind_Ok in Hi as (s2 & H2 & Hi).
      injection Hi as <-. eauto.
    + intros (ts & Hts & ->). inversion Hts as [|t u l1 ts0 Hu Hts0]; subst.
      exists u. split.
      * simpl in Hu. destruct (is_one e_2); [exact Hu|].
        destruct Hu as (s1 & s2 & H1 & H2 & ->).
        rewrite H1, H2. reflexivity.
      * apply rbind_Ok. exists (foldr (fun u acc => " * " ++ u ++ acc) "" ts0).
        split; [apply IH; eauto | reflexivity].
Qed.

(** The map built from the parameter list keeps the first index of each id. *)
Lemma build_map_from_lookup (i : nat) (ps : list variable) (m : IdToIndexMap) (id : N) :
  build_map_from i ps m !! id =
  match m !! id with
  | Some j => Some j
  | None => (fun r => (i + r.1)%nat) <$> list_find (fun p => var_id p = id) ps
  end.
Proof.
  revert i m. induction ps as [|p ps IH]; intros i m; simpl.
  - destruct (m !! id); reflexivity.
  - rewrite IH. unfold emplace.
    destruct (m !! var_id p) as [j|] eqn:Hp.
    + destruct (m !! id) as [k|] eqn:Hid; [reflexivity|].
      destruct (decide (var_id p = id)) as [<-|Hne]; [congruence|].
      destruct (list_find _ ps) as [[r q]|]; simpl; [f_equal; lia|reflexivity].
    + destruct (decide (var_id p = id)) as [<-|Hne].
      * rewrite Hp, lookup_insert_eq. simpl. f_equal. lia.
      * rewrite lookup_insert_ne by congruence.
        destruct (m !! id) as [k|]; [reflexivity|].
        destruct (list_find _ ps) as [[r q]|]; simpl; [f_equal; lia|reflexivity].
Qed.

Lemma build_id_to_idx_map_lookup (ps : list variable) (id : N) :
  build_id_to_idx_map ps !! id = fst <$> list_find (fun p => var_id p = id) ps.
Proof.
  unfold build_id_to_idx_map. rewrite build_map_from_lookup, lookup_empty.
  destruct (list_find _ ps) as [[r q]|]; reflexivity.
Qed.

Lemma write_appends s : sink_appends (write s) s (Ok tt).
Proof. intros os. reflexivity. Qed.

Lemma sink_bind_appends {A B} (c : Sink A) (k : A -> Sink B) w r :
  sink_appends c w r ->
  (forall a, r = Ok a -> exists w' r', sink_appends (k a) w' r') ->
  exists w'' r'', sink_appends (sink_bind c k) w'' r''.
Proof.
  intros Hc Hk. destruct r as [a|err].
  - destruct (Hk a eq_refl) as (w' & r' & Hk').
    exists (w ++ w'), r'. intros os. unfold sink_bind. rewrite Hc, Hk', str_app_assoc.
    reflexivity.
  - exists w, (Err err). intros os. unfold sink_bind. rewrite Hc. reflexivity.
Qed.

Lemma emit_assignments_appends m i data :
  exists w r, sink_appends (internal.emit_assignments m i data) w r.
Proof.
  revert i. induction data as [|d data IH]; intros i; simpl.
  - exists "", (Ok tt). intros os. rewrite str_app_nil. reflexivity.
  - eapply sink_bind_appends; [apply write_appends|]. intros [] _.
    destruct (CodeGenVisitor.CodeGen m d) as [s|err] eqn:Hd.
    + apply (sink_bind_appends _ _ "" (Ok s)).
      { intros os. unfold lift. rewrite str_app_nil. reflexivity. }
      intros s' [= <-].
      eapply sink_bind_appends; [apply write_appends|]. intros [] _. apply IH.
    + exists "", (Err err). intros os. unfold sink_bind, lift. rewrite str_app_nil.
      reflexivity.
Qed.

Lemma emit_assignments_Ok m data ss :
  Forall2 (fun d s => CodeGenVisitor.CodeGen m d = Ok s) data ss ->
  forall i os, internal.emit_assignments m i data os =
    (os ++ foldr String.append "" (imap (fun k s => internal.assignment_text (i + k) s) ss),
     Ok tt).
Proof.
  induction 1 as [|d s data ss Hd Hrest IH]; intros i os; simpl.
  - rewrite str_app_nil. reflexivity.
  - unfold sink_bind at 1, write at 1. unfold sink_bind at 1, lift. rewrite Hd.
    unfold sink_bind at 1, write at 1. rewrite IH.
    rewrite (imap_ext (fun k s => internal.assignment_text (S i + k) s)
               ((fun k s => internal.assignment_text (i + k) s) ∘ S))
      by (intros k t _; simpl; do 4 f_equal; lia).
    simpl. rewrite Nat.add_0_r. unfold internal.assignment_text at 2. str_norm.
    reflexivity.
Qed.

Lemma emit_assignments_Err m i data os os' r :
  internal.emit_assignments m i data os = (os', r) ->
  (exists d, In d data /\ forall s, CodeGenVisitor.CodeGen m d <> Ok s) ->
  exists err, r = Err err.
Proof.
  revert i os. induction data as [|d data IH]; intros i os Hrun (d' & Hin & Hd').
  - destruct Hin.
  - simpl in Hrun. unfold sink_bind at 1, write at 1 in Hrun.
    unfold sink_bind at 1, lift in Hrun.
    destruct (CodeGenVisitor.CodeGen m d) as [s|err] eqn:Hd.
    + destruct Hin as [<-|Hin]; [exfalso; exact (Hd' s Hd)|].
      unfold sink_bind at 1, write at 1 in Hrun.
      exact (IH _ _ Hrun (ex_intro _ d' (conj Hin Hd'))).
    + injection Hrun as _ <-. eauto.
Qed.

Lemma emit_assignments_app m pre ss rest i os :
  Forall2 (fun d s => CodeGenVisitor.CodeGen m d = Ok s) pre ss ->
  internal.emit_assignments m i (pre ++ rest) os =
  internal.emit_assignments m (i + length pre) rest
    (os ++ foldr String.append "" (imap (fun k s => internal.assignment_text (i + k) s) ss)).
Proof.
  intros Hpre. revert i os. induction Hpre as [|d s pre ss Hd Hrest IH]; intros i os.
  - cbn [app length imap foldr]. rewrite Nat.add_0_r, str_app_nil. reflexivity.
  - cbn [app length internal.emit_assignments].
    unfold sink_bind at 1, write at 1. unfold sink_bind at 1, lift. rewrite Hd.
    unfold sink_bind at 1, write at 1. rewrite IH.
    replace (i + S (length pre))%nat with (S i + length pre)%nat by lia. f_equal.
    rewrite (imap_ext (fun k s => internal.assignment_text (S i + k) s)
               ((fun k s => internal.assignment_text (i + k) s) ∘ S))
      by (intros k t _; simpl; do 4 f_equal; lia).
    cbn [imap foldr]. rewrite Nat.add_0_r. unfold internal.assignment_text at 2. str_norm.
    reflexivity.
Qed.


(** The loop at the first entry [d] whose lowering fails: the lines of the
    entries before it and the start of its own line are in the sink. *)
Lemma emit_assignments_first_error m pre d post ss err i os :
  Forall2 (fun d s => CodeGenVisitor.CodeGen m d = Ok s) pre ss ->
  CodeGenVisitor.CodeGen m d = Err err ->
  internal.emit_assignments m i (pre ++ d :: post) os =
  (os ++ foldr String.append "" (imap (fun k s => internal.assignment_text (i + k) s) ss) ++
   "    " ++ "m[" ++ int_to_string (Z.of_nat (i + length pre)) ++ "] = ", Err err).
Proof.
  intros Hpre Hd. rewrite (emit_assignments_app _ _ _ _ _ _ Hpre).
  cbn [internal.emit_assignments]. cbv [sink_bind write lift]. rewrite Hd.
  rewrite !str_app_assoc. reflexivity.
Qed.

(** An error of the loop is the error of the lowering of one of its entries. *)
Lemma emit_assignments_Err_source m i data os os' err :
  internal.emit_assignments m i data os = (os', Err err) ->
  exists d, In d data /\ CodeGenVisitor.CodeGen m d = Err err.
Proof.
  revert i os. induction data as [|d data IH]; intros i os Hrun.
  - discriminate.
  - cbn [internal.emit_assignments] in Hrun. cbv [sink_bind write lift] in Hrun.
    destruct (CodeGenVisitor.CodeGen m d) as [s|e'] eqn:Hd.
    + destruct (IH _ _ Hrun) as (d' & Hin & Hd'). exists d'. split; [right|]; assumption.
    + injection Hrun as _ <-. exists d. split; [left; reflexivity | exact Hd].
Qed.

Lemma build_map_from_ids (i : nat) (p1 p2 : list variable) (m : IdToIndexMap) :
  map var_id p1 = map var_id p2 -> build_map_from i p1 m = build_map_from i p2 m.
Proof.
  revert i p2 m. induction p1 as [|a p1 IH]; intros i [|b p2] m Hids; simpl in *;
    try discriminate; [reflexivity|].
  injection Hids as Hab Hids. rewrite Hab. apply IH. exact Hids.
Qed.

Lemma rbind_Err {A B} (r : result A) (k : A -> result B) err :
  rbind r k = Err err -> r = Err err \/ exists a, r = Ok a /\ k a = Err err.
Proof. destruct r as [a|e]; simpl; intros H; [right; eauto | left; congruence]. Qed.

Lemma Forall2_In_l {A B} (R : A -> B -> Prop) l1 l2 x :
  Forall2 R l1 l2 -> In x l1 -> exists y, R x y.
Proof.
  induction 1 as [|a b l1 l2 Hab _ IH]; simpl; [intros []|].
  intros [<-|Hin]; eauto.
Qed.

Lemma addition_terms_Err m l err :
  addition_terms m l = Err err -> exists t, In t l /\ CodeGenVisitor.CodeGen m t.1 = Err err.
Proof.
  induction l as [|[e_i c_i] l IH]; simpl; intros H; [discriminate|].
  apply rbind_Err in H as [H|(s_i & _ & H)]; [exists (e_i, c_i); simpl; auto|].
  apply rbind_Err in H as [H|(rest & _ & H)]; [|discriminate].
  destruct (IH H) as (t & Hin & Ht). eauto.
Qed.

Lemma multiplication_factors_Err m l err :
  multiplication_factors m l = Err err ->
  exists t, In t l /\ (CodeGenVisitor.CodeGen m t.1 = Err err \/
                       CodeGenVisitor.CodeGen m t.2 = Err err).
Proof.
  induction l as [|[e_1 e_2] l IH]; simpl; intros H; [discriminate|].
  apply rbind_Err in H as [H|(s_i & _ & H)].
  - exists (e_1, e_2). split; [left; reflexivity|]. simpl.
    destruct (is_one e_2); [left; exact H|].
    apply rbind_Err in H as [H|(s1 & _ & H)]; [left; exact H|].
    apply rbind_Err in H as [H|(s2 & _ & H)]; [right; exact H | discriminate].
  - apply rbind_Err in H as [H|(rest & _ & H)]; [|discriminate].
    destruct (IH H) as (t & Hin & Ht). eauto.
Qed.

Lemma is_one_supported e : is_one e = true -> has_unsupported e = false.
Proof. destruct e; simpl; congruence. Qed.

(** Lowering never succeeds on an expression with an unsupported node. *)
Lemma CodeGen_unsupported_not_Ok m e :
  has_unsupported e = true -> forall s, CodeGenVisitor.CodeGen m e <> Ok s.
Proof.
  induction e using expression_ind'; intros Hu s Hs; simpl in Hu.
  - discriminate.
  - discriminate.
  - rewrite CodeGen_addition, rbind_Ok in Hs. destruct Hs as (body & Hb & _).
    apply addition_terms_Ok in Hb as (ts & Hts & _).
    apply existsb_exists in Hu as ([e_i c_i] & Hin & Hui).
    destruct (Forall2_In_l _ _ _ _ Hts Hin) as (u & s_i & Hi & _).
    rewrite List.Forall_forall in H. exact (H _ Hin Hui s_i Hi).
  - rewrite CodeGen_multiplication, rbind_Ok in Hs. destruct Hs as (body & Hb & _).
    apply multiplication_factors_Ok in Hb as (ts & Hts & _).
    apply existsb_exists in Hu as ([e_1 e_2] & Hin & Hui).
    destruct (Forall2_In_l _ _ _ _ Hts Hin) as (u & Hu).
    rewrite List.Forall_forall in H. destruct (H _ Hin) as [H1 H2]. simpl in *.
    destruct (is_one e_2) eqn:Hone.
    + rewrite (is_one_supported _ Hone), orb_false_r in Hui. exact (H1 Hui u Hu).
    + destruct Hu as (s1 & s2 & Hs1 & Hs2 & _).
      apply orb_true_iff in Hui as [Hui|Hui]; [exact (H1 Hui s1 Hs1) | exact (H2 Hui s2 Hs2)].
  - simpl in Hs. apply rbind_Ok in Hs as (s1 & Hs1 & Hs). apply rbind_Ok in Hs as (s2 & Hs2 & _).
    apply orb_true_iff in Hu as [Hu|Hu]; [exact (IHe1 Hu s1 Hs1) | exact (IHe2 Hu s2 Hs2)].
  - simpl in Hs. apply rbind_Ok in Hs as (s1 & Hs1 & _). exact (IHe Hu s1 Hs1).
  - simpl in Hs. apply rbind_Ok in Hs as (s1 & Hs1 & Hs). apply rbind_Ok in Hs as (s2 & Hs2 & _).
    apply orb_true_iff in Hu as [Hu|Hu]; [exact (IHe1 Hu s1 Hs1) | exact (IHe2 Hu s2 Hs2)].
  - discriminate.
  - discriminate.
Qed.

(** With every variable bound, the only failures are unsupported nodes. *)
Lemma CodeGen_bound_error_kind m e err :
  vars_bound m e = true -> CodeGenVisitor.CodeGen m e = Err err ->
  exists msg, err = UnsupportedConstruct msg.
Proof.
  revert err. induction e using expression_ind'; intros err Hb He; simpl in Hb.
  - simpl in He. apply bool_decide_eq_true in Hb as [i Hi]. rewrite Hi in He. discriminate.
  - discriminate.
  - rewrite CodeGen_addition in He. apply rbind_Err in He as [He|(body & _ & He)]; [|discriminate].
    apply addition_terms_Err in He as ([e_i c_i] & Hin & Hi).
    rewrite List.Forall_forall in H. apply (H _ Hin); [|exact Hi].
    rewrite forallb_forall in Hb. exact (Hb _ Hin).
  - rewrite CodeGen_multiplication in He.
    apply rbind_Err in He as [He|(body & _ & He)]; [|discriminate].
    apply multiplication_factors_Err in He as ([e_1 e_2] & Hin & Hi).
    rewrite List.Forall_forall in H. destruct (H _ Hin) as [H1 H2].
    rewrite forallb_forall in Hb. apply Hb, andb_true_iff in Hin as [Hb1 Hb2].
    destruct Hi as [Hi|Hi]; [exact (H1 _ Hb1 Hi) | exact (H2 _ Hb2 Hi)].
  - simpl in He. apply andb_true_iff in Hb as [Hb1 Hb2].
    apply rbind_Err in He as [He|(s1 & _ & He)]; [exact (IHe1 _ Hb1 He)|].
    apply rbind_Err in He as [He|(s2 & _ & He)]; [exact (IHe2 _ Hb2 He) | discriminate].
  - simpl in He. apply rbind_Err in He as [He|(s1 & _ & He)]; [exact (IHe _ Hb He) | discriminate].
  - simpl in He. apply andb_true_iff in Hb as [Hb1 Hb2].
    apply rbind_Err in He as [He|(s1 & _ & He)]; [exact (IHe1 _ Hb1 He)|].
    apply rbind_Err in He as [He|(s2 & _ & He)]; [exact (IHe2 _ Hb2 He) | discriminate].
  - simpl in He. injection He as <-. eauto.
  - simpl in He. injection He as <-. eauto.
Qed.

Lemma result_not_Ok {A} (r : result A) : (forall a, r <> Ok a) -> exists err, r = Err err.
Proof. destruct r as [a|err]; [intros H; exfalso; exact (H a eq_refl) | eauto]. Qed.

Lemma CodeGenData_appends function_name parameters data :
  exists w r, sink_appends (internal.CodeGenData function_name parameters data) w r.
Proof.
  destruct (emit_assignments_appends (build_id_to_idx_map parameters) 0 data) as (w & r & Hw).
  unfold internal.CodeGenData. eapply sink_bind_appends; [apply write_appends|]. intros [] _.
  eapply sink_bind_appends; [exact Hw|]. intros [] _. eexists _, _. apply write_appends.
Qed.

Lemma CodeGenMeta_appends function_name parameter_size rows cols :
  exists w r, sink_appends (internal.CodeGenMeta function_name parameter_size rows cols) w r.
Proof.
  unfold internal.CodeGenMeta. eapply sink_bind_appends; [apply write_appends|]. intros [] _.
  eexists _, _. apply write_appends.
Qed.

(* ------------------------------------------------------------------ *)
(** ** Digits: printing and reading back *)

Lemma digit_char_ok d : 0 <= d < 10 ->
  is_digit (digit_char d) = true /\ digit_val (digit_char d) = d.
Proof.
  intros Hd.
  assert (d = 0 \/ d = 1 \/ d = 2 \/ d = 3 \/ d = 4 \/ d = 5 \/ d = 6 \/ d = 7 \/ d = 8 \/ d = 9)
    as Hcases by lia.
  repeat destruct Hcases as [->|Hcases]; try (split; reflexivity);
    subst; split; reflexivity.
Qed.

Lemma all_digits_app s1 s2 : all_digits (s1 ++ s2) = all_digits s1 && all_digits s2.
Proof. induction s1 as [|c s1 IH]; simpl; [reflexivity|]. rewrite IH, andb_assoc. reflexivity. Qed.

Lemma str_length_app s1 s2 : String.length (s1 ++ s2) = (String.length s1 + String.length s2)%nat.
Proof. induction s1 as [|c s1 IH]; simpl; [reflexivity | now rewrite IH]. Qed.

Lemma digits_fold_app s1 s2 acc : digits_fold (s1 ++ s2) acc = digits_fold s2 (digits_fold s1 acc).
Proof. revert acc. induction s1 as [|c s1 IH]; intros acc; simpl; [reflexivity | apply IH]. Qed.

Lemma digits_fold_acc s acc :
  digits_fold s acc = acc * 10 ^ Z.of_nat (String.length s) + digits_fold s 0.
Proof.
  revert acc. induction s as [|c s IH]; intros acc; simpl; [lia|].
  rewrite (IH (10 * acc + digit_val c)), (IH (10 * 0 + digit_val c)).
  rewrite Nat2Z.inj_succ, Z.pow_succ_r by lia. lia.
Qed.

Lemma read_digits_app L rest acc k :
  all_digits L = true ->
  read_digits (L ++ rest) acc k = read_digits rest (digits_fold L acc) (k + String.length L).
Proof.
  revert acc k. induction L as [|c L IH]; intros acc k HL; simpl in *.
  - rewrite Nat.add_0_r. reflexivity.
  - apply andb_true_iff in HL as [Hc HL]. rewrite Hc, IH by exact HL.
    rewrite Nat.add_succ_r. reflexivity.
Qed.

Lemma fixed_digits_spec k n : 0 <= n ->
  all_digits (fixed_digits k n) = true /\ String.length (fixed_digits k n) = k /\
  digits_fold (fixed_digits k n) 0 = n mod 10 ^ Z.of_nat k.
Proof.
  revert n. induction k as [|k IH]; intros n Hn; simpl.
  - repeat split. rewrite Z.mod_1_r. reflexivity.
  - destruct (IH (n / 10)) as (Hd & Hl & Hv); [apply Z.div_pos; lia|].
    destruct (digit_char_ok (n mod 10)) as [Hc Hcv]; [apply Z.mod_pos_bound; lia|].
    rewrite all_digits_app, digits_fold_app, str_length_app. cbn [all_digits digits_fold String.length].
    rewrite Hd, Hc, Hl, Hv, Hcv. repeat split; [lia|].
    rewrite Nat2Z.inj_succ, Z.pow_succ_r, Z.rem_mul_r by lia. lia.
Qed.

Lemma dec_aux_spec f n acc :
  0 <= n < 2 ^ Z.of_nat f -> (0 < f)%nat ->
  exists L, dec_aux f n acc = L ++ acc /\ all_digits L = true /\ L <> "" /\
            digits_fold L 0 = n.
Proof.
  revert n acc. induction f as [|f IH]; intros n acc Hn Hf; [lia|]. cbn [dec_aux].
  destruct (digit_char_ok (n mod 10)) as [Hc Hcv]; [apply Z.mod_pos_bound; lia|].
  destruct (Z.eqb_spec (n / 10) 0) as [H0|H0].
  - exists (String (digit_char (n mod 10)) ""). split; [reflexivity|].
    cbn [all_digits digits_fold]. rewrite Hc. repeat split; [discriminate|].
    rewrite Hcv. pose proof (Z.div_mod n 10). lia.
  - assert (Hq : 0 <= n / 10 < 2 ^ Z.of_nat f).
    { split; [apply Z.div_pos; lia|].
      rewrite Nat2Z.inj_succ, Z.pow_succ_r in Hn by lia.
      pose proof (Z.div_mod n 10). pose proof (Z.mod_pos_bound n 10). lia. }
    assert (Hf' : (0 < f)%nat).
    { destruct f; [|lia]. simpl in Hq. pose proof (Z.div_pos n 10). lia. }
    destruct (IH (n / 10) (String (digit_char (n mod 10)) acc) Hq Hf') as (L & HL & Hd & Hne & Hv).
    exists (L ++ String (digit_char (n mod 10)) ""). rewrite HL, str_app_assoc.
    split; [reflexivity|].
    rewrite all_digits_app, digits_fold_app. cbn [all_digits digits_fold].
    rewrite Hd, Hc, Hv, Hcv.
    split; [reflexivity|]. split; [destruct L; [congruence|discriminate]|].
    pose proof (Z.div_mod n 10). lia.
Qed.

Lemma dec_nonneg_spec n : 0 <= n ->
  all_digits (dec_nonneg n) = true /\ dec_nonneg n <> "" /\ digits_fold (dec_nonneg n) 0 = n.
Proof.
  intros Hn. unfold dec_nonneg.
  destruct (dec_aux_spec (S (Z.to_nat (Z.log2 n))) n "") as (L & HL & Hd & Hne & Hv).
  - split; [exact Hn|]. rewrite Nat2Z.inj_succ, Z2Nat.id by apply Z.log2_nonneg.
    destruct (Z.eq_dec n 0) as [->|Hn0]; [simpl; lia|].
    apply Z.log2_spec. lia.
  - lia.
  - rewrite HL, str_app_nil. auto.
Qed.

Lemma round_div_even_spec a b : 0 <= a -> 0 < b ->
  0 <= round_div_even a b /\ 2 * Z.abs (round_div_even a b * b - a) <= b /\
  (a mod b = 0 -> round_div_even a b * b = a).
Proof.
  intros Ha Hb. unfold round_div_even.
  pose proof (Z.div_mod a b ltac:(lia)) as Hdm. pose proof (Z.mod_pos_bound a b Hb) as Hr.
  pose proof (Z.div_pos a b Ha Hb) as Hq.
  set (q := a / b) in *. set (r := a mod b) in *.
  destruct (Z.ltb_spec (2 * r) b); [|destruct (Z.ltb_spec b (2 * r)); [|destruct (Z.even q)]];
    (split; [lia|split; [|intros; lia]]); nia.
Qed.

Lemma dden_pos c : 0 < dden c.
Proof. unfold dden. apply Z.pow_pos_nonneg; lia. Qed.

Lemma dnum_sign c : (mant c < 0 -> dnum c = - Z.abs (dnum c)) /\
                    (0 <= mant c -> dnum c = Z.abs (dnum c)).
Proof.
  unfold dnum. assert (0 < 2 ^ Z.max (expo c) 0) by (apply Z.pow_pos_nonneg; lia).
  split; intros H0; [rewrite Z.abs_neq | rewrite Z.abs_eq]; nia.
Qed.

Lemma read_digits_dot acc k F :
  read_digits (String "."%char F) acc k = (acc, k, String "."%char F).
Proof. reflexivity. Qed.

(** The text of [std::to_string(c)] reads back as [sign * N / 10^6], [N]
    the six-place rounding of [|c| * 10^6]. *)
Lemma parse_to_string_double c :
  exists q, parse_decimal (to_string_double c) = Some q /\
    (q == Qmake ((if mant c <? 0 then -1 else 1) *
                 round_div_even (Z.abs (dnum c) * 10 ^ 6) (dden c)) 1000000)%Q.
Proof.
  set (N := round_div_even (Z.abs (dnum c) * 10 ^ 6) (dden c)).
  assert (HN : 0 <= N).
  { apply round_div_even_spec; [|apply dden_pos]. pose proof (Z.abs_nonneg (dnum c)). lia. }
  destruct (dec_nonneg_spec (N / 10 ^ 6)) as (Hd & Hne & Hv); [apply Z.div_pos; lia|].
  destruct (fixed_digits_spec 6 (N mod 10 ^ 6)) as (Hf & Hl & Hfv); [apply Z.mod_pos_bound; lia|].
  set (D := dec_nonneg (N / 10 ^ 6)) in *. set (F := fixed_digits 6 (N mod 10 ^ 6)) in *.
  assert (Hbody : read_digits (D ++ String "."%char F) 0 0 = (N / 10 ^ 6, String.length D, String "."%char F)).
  { rewrite read_digits_app by exact Hd. rewrite Hv. reflexivity. }
  assert (Hfrac : read_digits F 0 0 = (N mod 10 ^ 6, 6%nat, "")).
  { rewrite <- (str_app_nil F), read_digits_app by exact Hf. rewrite Hfv, Hl.
    change (10 ^ Z.of_nat 6) with (10 ^ 6). rewrite Z.mod_mod by lia. reflexivity. }
  assert (HlenD : (String.length D =? 0)%nat = false).
  { destruct D; [congruence | reflexivity]. }
  assert (Hq : (inject_Z ((if mant c <? 0 then -1 else 1)) *
                (inject_Z (N / 10 ^ 6) + Qmake (N mod 10 ^ 6) (Z.to_pos (10 ^ Z.of_nat 6))) ==
                Qmake ((if mant c <? 0 then -1 else 1) * N) 1000000)%Q).
  { pose proof (Z.div_mod N (10 ^ 6) ltac:(lia)).
    change (10 ^ 6) with 1000000 in *. unfold Qeq, Qmult, Qplus, inject_Z. simpl.
    destruct (mant c <? 0); lia. }
  unfold to_string_double, sign_text. fold N. fold D. fold F.
  destruct (Z.ltb_spec (mant c) 0) as [Hneg|Hpos].
  - exists (inject_Z (-1) * (inject_Z (N / 10 ^ 6) +
             Qmake (N mod 10 ^ 6) (Z.to_pos (10 ^ Z.of_nat 6))))%Q.
    split; [|exact Hq].
    unfold parse_decimal. simpl (("-" ++ _)). cbn [Ascii.eqb Bool.eqb].
    rewrite Hbody, HlenD. cbn [Ascii.eqb Bool.eqb]. rewrite Hfrac. reflexivity.
  - exists (inject_Z 1 * (inject_Z (N / 10 ^ 6) +
             Qmake (N mod 10 ^ 6) (Z.to_pos (10 ^ Z.of_nat 6))))%Q.
    split; [|exact Hq].
    unfold parse_decimal. simpl ("" ++ _).
    destruct D as [|ch D'] eqn:HD; [congruence|].
    simpl in Hd. apply andb_true_iff in Hd as [Hch _].
    assert (Hdash : Ascii.eqb ch "-"%char = false).
    { destruct (Ascii.eqb_spec ch "-"%char) as [->|]; [discriminate|reflexivity]. }
    simpl (String ch D' ++ _). cbv beta iota. rewrite Hdash. change (String ch (D' ++ String "."%char F)) with (String ch D' ++ String "."%char F).
    rewrite Hbody, HlenD. simpl ("." ++ F). rewrite Hfrac. reflexivity.
Qed.

(** The text of [std::to_string(c)] reads back within half a unit of the
    sixth decimal place of [c], and exactly when [|c| * 10^6] is an integer. *)
Lemma to_string_double_error c :
  exists q, parse_decimal (to_string_double c) = Some q /\
    (Qabs (q - double_value c) <= 1 # 2000000)%Q /\
    ((Z.abs (dnum c) * 10 ^ 6) mod dden c = 0 -> (q == double_value c)%Q).
Proof.
  destruct (parse_to_string_double c) as (q & Hp & Hq). exists q. split; [exact Hp|].
  pose proof (dden_pos c) as Hb. pose proof (Z.abs_nonneg (dnum c)) as Ha.
  destruct (round_div_even_spec (Z.abs (dnum c) * 10 ^ 6) (dden c)) as (HN & Hr & He);
    [lia|exact Hb|].
  set (N := round_div_even (Z.abs (dnum c) * 10 ^ 6) (dden c)) in *.
  destruct (dnum_sign c) as [Hsn Hsp].
  rewrite Hq. unfold double_value. change (10 ^ 6) with 1000000 in *.
  set (a := Z.abs (dnum c)) in *. set (b := dden c) in *.
  split.
  - unfold Qabs, Qminus, Qplus, Qopp, Qle. cbn [Qnum Qden].
    rewrite Pos2Z.inj_mul, Z2Pos.id by lia.
    destruct (Z.ltb_spec (mant c) 0) as [Hm|Hm];
      [rewrite (Hsn Hm) | rewrite (Hsp Hm)]; fold a;
      nia.
  - intros Hmod. specialize (He Hmod).
    unfold Qeq. cbn [Qnum Qden]. rewrite Z2Pos.id by lia.
    destruct (Z.ltb_spec (mant c) 0) as [Hm|Hm];
      [rewrite (Hsn Hm) | rewrite (Hsp Hm)]; fold a; nia.
Qed.

(* ------------------------------------------------------------------ *)
(** ** Claims *)

(** C1: lowering a variable absent from the bindings fails with
    [UnboundVariable]; a variable bound at index [i] is emitted as ["p[i]"]. *)
Theorem C1_variable_lowering (m : IdToIndexMap) (v : variable) :
  (m !! var_id v = None ->
   CodeGenVisitor.CodeGen m (EVariable v) = Err UnboundVariable) /\
  (forall i : nat, m !! var_id v = Some i ->
   CodeGenVisitor.CodeGen m (EVariable v) = Ok ("p[" ++ int_to_string (Z.of_nat i) ++ "]")).
Proof.
  split; [intros H | intros i H]; simpl; rewrite H; reflexivity.
Qed.

Lemma C1_witness :
  (build_id_to_idx_map [var_x; var_y] !! var_id var_z = None /\
   CodeGenVisitor.CodeGen (build_id_to_idx_map [var_x; var_y]) (EVariable var_z)
   = Err UnboundVariable) /\
  (build_id_to_idx_map [var_x; var_y] !! var_id var_y = Some 1%nat /\
   CodeGenVisitor.CodeGen (build_id_to_idx_map [var_x; var_y]) (EVariable var_y)
   = Ok "p[1]").
Proof.
  split; split.
  - reflexivity.
  - apply (proj1 (C1_variable_lowering _ var_z)). reflexivity.
  - reflexivity.
  - apply (proj2 (C1_variable_lowering _ var_y) 1%nat). reflexivity.
Defined.

(** C2 (as stated): lowering a constant does not round-trip at full double
    precision. The double [2^-30] is finite; it is emitted as ["0.000000"],
    which [strtod] reads as [0], and no double read from that text has the
    value [2^-30]. *)
Lemma C2_counterexample :
  is_finite_double (mk_double 1 (-30)) = true /\
  CodeGenVisitor.CodeGen (build_id_to_idx_map []) (EConstant (mk_double 1 (-30)))
    = Ok "0.000000" /\
  strtod_rel "0.000000" (d_of_Z 0) /\
  forall v, strtod_rel "0.000000" v ->
    ~ (double_value v == double_value (mk_double 1 (-30)))%Q.
Proof.
  split; [reflexivity|]. split; [vm_compute; reflexivity|]. split.
  - eexists. split; [vm_compute; reflexivity|]. split; [reflexivity|].
    intros w _. apply Qle_trans with 0%Q; [vm_compute; discriminate | apply Qabs_nonneg].
  - intros v (q & Hp & _ & Hnear) Heq. vm_compute in Hp. injection Hp as <-.
    specialize (Hnear (d_of_Z 0) eq_refl). rewrite Heq in Hnear.
    vm_compute in Hnear. apply Hnear. reflexivity.
Qed.

(** C2 (amended): a finite constant [c] is emitted as [std::to_string(c)],
    the decimal text of [c] rounded to six places after the point. That text
    reads back within [1/2 * 10^-6] of [c]; a double nearest to it (what
    [strtod] returns) is within [10^-6] of [c], and equals [c] when
    [|c| * 10^6] is an integer. *)
Theorem C2_constant_text_precision (m : IdToIndexMap) (c : double) :
  is_finite_double c = true ->
  exists q, CodeGenVisitor.CodeGen m (EConstant c) = Ok (to_string_double c) /\
    parse_decimal (to_string_double c) = Some q /\
    (Qabs (q - double_value c) <= 1 # 2000000)%Q /\
    (forall v, strtod_rel (to_string_double c) v ->
       (Qabs (double_value v - double_value c) <= 1 # 1000000)%Q) /\
    ((Z.abs (dnum c) * 10 ^ 6) mod dden c = 0 ->
     forall v, strtod_rel (to_string_double c) v -> (double_value v == double_value c)%Q).
Proof.
  intros Hfin. destruct (to_string_double_error c) as (q & Hp & Hb & He). exists q.
  split; [reflexivity|]. split; [exact Hp|]. split; [exact Hb|].
  assert (Hnear : forall v, strtod_rel (to_string_double c) v ->
            (Qabs (double_value v - q) <= Qabs (double_value c - q))%Q).
  { intros v (q' & Hp' & _ & Hn). rewrite Hp in Hp'. injection Hp' as <-. apply Hn, Hfin. }
  apply Qabs_Qle_condition in Hb. split.
  - intros v Hv. specialize (Hnear v Hv).
    assert (Hc : (Qabs (double_value c - q) <= 1 # 2000000)%Q)
      by (apply Qabs_Qle_condition; lra).
    assert (Hv' : (Qabs (double_value v - q) <= 1 # 2000000)%Q) by (eapply Qle_trans; eauto).
    apply Qabs_Qle_condition in Hv'. apply Qabs_Qle_condition. lra.
  - intros Hmod v Hv. specialize (He Hmod). specialize (Hnear v Hv).
    assert (Hc : (Qabs (double_value c - q) <= 0)%Q) by (apply Qabs_Qle_condition; lra).
    assert (Hv' : (Qabs (double_value v - q) <= 0)%Q) by (eapply Qle_trans; eauto).
    apply Qabs_Qle_condition in Hv'. lra.
Qed.

Lemma C2_witness :
  is_finite_double (mk_double 3 (-1)) = true /\
  to_string_double (mk_double 3 (-1)) = "1.500000" /\
  exists q, CodeGenVisitor.CodeGen (build_id_to_idx_map []) (EConstant (mk_double 3 (-1)))
              = Ok (to_string_double (mk_double 3 (-1))) /\
    parse_decimal (to_string_double (mk_double 3 (-1))) = Some q /\
    (Qabs (q - double_value (mk_double 3 (-1))) <= 1 # 2000000)%Q /\
    (forall v, strtod_rel (to_string_double (mk_double 3 (-1))) v ->
       (Qabs (double_value v - double_value (mk_double 3 (-1))) <= 1 # 1000000)%Q) /\
    ((Z.abs (dnum (mk_double 3 (-1))) * 10 ^ 6) mod dden (mk_double 3 (-1)) = 0 ->
     forall v, strtod_rel (to_string_double (mk_double 3 (-1))) v ->
       (double_value v == double_value (mk_double 3 (-1)))%Q).
Proof.
  split; [reflexivity|]. split; [vm_compute; reflexivity|].
  apply (C2_constant_text_precision (build_id_to_idx_map []) (mk_double 3 (-1))).
  reflexivity.
Defined.

(** C3 (as stated): [Pow(x, 2)] is not lowered to ["pow(p[0], 2)"]: the
    constant goes through [std::to_string] and reads ["2.000000"]. *)
Lemma C3_counterexample :
  CodeGenVisitor.CodeGen (build_id_to_idx_map [var_x])
    (EBinary KPow (EVariable var_x) (EConstant (d_of_Z 2))) <> Ok "pow(p[0], 2)" /\
  CodeGenVisitor.CodeGen (build_id_to_idx_map [var_x])
    (EBinary KPow (EVariable var_x) (EConstant (d_of_Z 2))) = Ok "pow(p[0], 2.000000)".
Proof. vm_compute. split; [discriminate | reflexivity]. Qed.

(** C3 (amended): with [x] bound at [i] and [y] at [j], [Sin(x)] lowers to
    ["sin(p[i])"], [Pow(x, 2)] to ["pow(p[i], 2.000000)"] and [x / y] to
    ["(p[i] / p[j])"]. *)
Theorem C3_operator_lowering (m : IdToIndexMap) (x y : variable) (i j : nat) :
  m !! var_id x = Some i -> m !! var_id y = Some j ->
  CodeGenVisitor.CodeGen m (EUnary KSin (EVariable x))
    = Ok ("sin(p[" ++ int_to_string (Z.of_nat i) ++ "])") /\
  CodeGenVisitor.CodeGen m (EBinary KPow (EVariable x) (EConstant (d_of_Z 2)))
    = Ok ("pow(p[" ++ int_to_string (Z.of_nat i) ++ "], 2.000000)") /\
  CodeGenVisitor.CodeGen m (EDivision (EVariable x) (EVariable y))
    = Ok ("(p[" ++ int_to_string (Z.of_nat i) ++ "] / p[" ++
          int_to_string (Z.of_nat j) ++ "])").
Proof.
  intros Hx Hy. simpl. rewrite Hx, Hy. simpl.
  repeat split; str_norm; reflexivity.
Qed.

Lemma C3_witness :
  build_id_to_idx_map [var_x; var_y] !! var_id var_x = Some 0%nat /\
  build_id_to_idx_map [var_x; var_y] !! var_id var_y = Some 1%nat /\
  CodeGenVisitor.CodeGen (build_id_to_idx_map [var_x; var_y]) (EUnary KSin (EVariable var_x))
    = Ok "sin(p[0])".
Proof.
  split; [reflexivity|]. split; [reflexivity|].
  exact (proj1 (C3_operator_lowering (build_id_to_idx_map [var_x; var_y]) var_x var_y
                  0%nat 1%nat eq_refl eq_refl)).
Defined.

(** C4: [Addition(2, {(x, 1.0), (y, 3.0)})] (terms in this map order) with
    [x] at [i] and [y] at [j] lowers to ["(2 + p[i] + (3 * p[j]))"]; in
    general a term with coefficient [1.0] is emitted bare and every other
    term as ["(coeff * term)"]. *)
Theorem C4_addition_lowering (m : IdToIndexMap) (x y : variable) (i j : nat) :
  m !! var_id x = Some i -> m !! var_id y = Some j ->
  CodeGenVisitor.CodeGen m
    (EAddition (d_of_Z 2) [(EVariable x, one); (EVariable y, d_of_Z 3)])
  = Ok ("(2 + p[" ++ int_to_string (Z.of_nat i) ++ "] + (3 * p[" ++
        int_to_string (Z.of_nat j) ++ "]))") /\
  (forall c l s,
     CodeGenVisitor.CodeGen m (EAddition c l) = Ok s <->
     exists ts,
       Forall2 (fun t u => exists s_i, CodeGenVisitor.CodeGen m t.1 = Ok s_i /\
                  u = if double_eqb t.2 one then s_i
                      else "(" ++ fmt_g t.2 ++ " * " ++ s_i ++ ")") l ts /\
       s = "(" ++ fmt_g c ++ foldr (fun u acc => " + " ++ u ++ acc) "" ts ++ ")").
Proof.
  intros Hx Hy. split.
  - rewrite CodeGen_addition. cbn -[fmt_g int_to_string]. rewrite Hx, Hy.
    cbn -[fmt_g int_to_string].
    replace (fmt_g (d_of_Z 2)) with "2" by (vm_compute; reflexivity).
    replace (fmt_g (d_of_Z 3)) with "3" by (vm_compute; reflexivity).
    str_norm. reflexivity.
  - intros c l s. rewrite CodeGen_addition, rbind_Ok. split.
    + intros (body & Hb & Hs). injection Hs as <-.
      apply addition_terms_Ok in Hb as (ts & Hts & ->). eauto.
    + intros (ts & Hts & ->). eexists. split; [apply addition_terms_Ok; eauto|].
      reflexivity.
Qed.

Lemma C4_witness :
  build_id_to_idx_map [var_x; var_y] !! var_id var_x = Some 0%nat /\
  build_id_to_idx_map [var_x; var_y] !! var_id var_y = Some 1%nat /\
  CodeGenVisitor.CodeGen (build_id_to_idx_map [var_x; var_y])
    (EAddition (d_of_Z 2) [(EVariable var_x, one); (EVariable var_y, d_of_Z 3)])
  = Ok "(2 + p[0] + (3 * p[1]))".
Proof.
  split; [reflexivity|]. split; [reflexivity|].
  exact (proj1 (C4_addition_lowering (build_id_to_idx_map [var_x; var_y]) var_x var_y
                  0%nat 1%nat eq_refl eq_refl)).
Defined.

(** C5: a multiplication lowers to ["(c0 * f1 * f2 * ...)"], where a factor
    whose exponent is the constant [1] is the lowered base alone and any
    other factor is ["pow(base, exponent)"]; it fails exactly when one of
    these lowerings fails. *)
Theorem C5_multiplication_lowering (m : IdToIndexMap) (c0 : double)
    (base_to_exponent_map : list (Expression * Expression)) (s : string) :
  CodeGenVisitor.CodeGen m (EMultiplication c0 base_to_exponent_map) = Ok s <->
  exists ts,
    Forall2 (fun t u =>
               if is_one t.2 then CodeGenVisitor.CodeGen m t.1 = Ok u
               else exists s1 s2, CodeGenVisitor.CodeGen m t.1 = Ok s1 /\
                      CodeGenVisitor.CodeGen m t.2 = Ok s2 /\
                      u = "pow(" ++ s1 ++ ", " ++ s2 ++ ")") base_to_exponent_map ts /\
    s = "(" ++ fmt_g c0 ++ foldr (fun u acc => " * " ++ u ++ acc) "" ts ++ ")".
Proof.
  rewrite CodeGen_multiplication, rbind_Ok. split.
  - intros (body & Hb & Hs). injection Hs as <-.
    apply multiplication_factors_Ok in Hb as (ts & Hts & ->). eauto.
  - intros (ts & Hts & ->). eexists. split; [apply multiplication_factors_Ok; eauto|].
    reflexivity.
Qed.

(** C10: with repeated identities in the parameter list, the map keeps the
    first index: a variable whose identity first occurs at position [k]
    renders as ["p[k]"]. *)
Theorem C10_first_occurrence_wins (parameters : list variable) (v p : variable) (k : nat) :
  parameters !! k = Some p -> var_id p = var_id v ->
  (forall (j : nat) (q : variable), parameters !! j = Some q -> (j < k)%nat ->
     var_id q <> var_id v) ->
  build_id_to_idx_map parameters !! var_id v = Some k /\
  CodeGenVisitor.CodeGen (build_id_to_idx_map parameters) (EVariable v)
    = Ok ("p[" ++ int_to_string (Z.of_nat k) ++ "]").
Proof.
  intros Hk Hp Hfirst.
  assert (Hf : list_find (fun q => var_id q = var_id v) parameters = Some (k, p)).
  { apply list_find_Some. split; [exact Hk|]. split; [exact Hp|].
    intros j q Hj Hlt. exact (Hfirst j q Hj Hlt). }
  assert (Hm : build_id_to_idx_map parameters !! var_id v = Some k).
  { rewrite build_id_to_idx_map_lookup, Hf. reflexivity. }
  split; [exact Hm|]. simpl. rewrite Hm. reflexivity.
Qed.

Lemma C10_witness :
  ([var_x; var_y; var_x_again] !! 0%nat = Some var_x /\ var_id var_x = var_id var_x_again) /\
  CodeGenVisitor.CodeGen (build_id_to_idx_map [var_x; var_y; var_x_again])
    (EVariable var_x_again) = Ok "p[0]".
Proof.
  split; [split; reflexivity|].
  refine (proj2 (C10_first_occurrence_wins [var_x; var_y; var_x_again] var_x_again var_x
                   0%nat eq_refl eq_refl _)).
  intros j q _ Hlt. lia.
Defined.

(** C6 (as stated): batch generation leaves partial text in the caller's
    sink, and an unbound variable met before the unsupported node makes the
    error [UnboundVariable]. *)
Lemma C6_counterexample :
  fst (internal.CodeGenData "f" [var_x] [EIfThenElse "x < 0" (EVariable var_x) (EVariable var_x)] "")
    <> "" /\
  snd (internal.CodeGenData "f" [var_x] [EIfThenElse "x < 0" (EVariable var_x) (EVariable var_x)] "")
    = Err (UnsupportedConstruct "Codegen does not support if-then-else expressions.") /\
  CodeGen "f" []
    (EAddition (d_of_Z 0) [(EVariable var_x, d_of_Z 2);
                           (EIfThenElse "x < 0" (EVariable var_x) (EVariable var_x), one)])
    = Err UnboundVariable.
Proof. vm_compute. split; [discriminate | split; reflexivity]. Qed.

(** C6 (amended): lowering an expression with an if-then-else or an
    uninterpreted-function node always fails, with [UnsupportedConstruct]
    when all its variables are bound; the scalar emitter then returns no
    text, while the batch emitter has already written to the sink: when [e]
    is the first entry that fails, the sink holds the function header, the
    lines ["    m[k] = <lowered data[k]>;"] of the entries before it and the
    start ["    m[i] = "] of its own line, [i] its index. *)
Theorem C6_unsupported_rejection (m : IdToIndexMap) (e : Expression)
    (function_name : string) (parameters : list variable)
    (data : list Expression) (os : string) :
  has_unsupported e = true ->
  (exists err, CodeGenVisitor.CodeGen m e = Err err) /\
  (vars_bound m e = true ->
   exists msg, CodeGenVisitor.CodeGen m e = Err (UnsupportedConstruct msg)) /\
  (exists err, CodeGen function_name parameters e = Err err) /\
  (In e data ->
   exists written err,
     internal.CodeGenData function_name parameters data os =
     (os ++ internal.data_header_text function_name ++ written, Err err)) /\
  (forall (pre post : list Expression) (ss : list string),
   Forall2 (fun d s => CodeGenVisitor.CodeGen (build_id_to_idx_map parameters) d = Ok s) pre ss ->
   exists err,
     CodeGenVisitor.CodeGen (build_id_to_idx_map parameters) e = Err err /\
     internal.CodeGenData function_name parameters (pre ++ e :: post) os =
     (os ++ internal.data_header_text function_name ++
      foldr String.append "" (imap internal.assignment_text ss) ++
      "    m[" ++ int_to_string (Z.of_nat (length pre)) ++ "] = ", Err err)).
Proof.
  intros Hu. split; [|split; [|split; [|split]]].
  - apply result_not_Ok. intros s. apply CodeGen_unsupported_not_Ok. exact Hu.
  - intros Hb. destruct (result_not_Ok (CodeGenVisitor.CodeGen m e)) as (err & He).
    { intros s. apply CodeGen_unsupported_not_Ok. exact Hu. }
    destruct (CodeGen_bound_error_kind _ _ _ Hb He) as (msg & ->). eauto.
  - apply result_not_Ok. intros s Hs. unfold CodeGen in Hs.
    apply rbind_Ok in Hs as (body & Hbody & _).
    exact (CodeGen_unsupported_not_Ok _ _ Hu body Hbody).
  - intros Hin.
    destruct (emit_assignments_appends (build_id_to_idx_map parameters) 0 data) as (w & r & Hw).
    destruct (emit_assignments_Err _ _ _ _ _ _ (Hw (os ++ internal.data_header_text function_name)))
      as (err & ->).
    { exists e. split; [exact Hin|]. apply CodeGen_unsupported_not_Ok. exact Hu. }
    exists w, err. unfold internal.CodeGenData, sink_bind at 1, write at 1.
    unfold sink_bind at 1. rewrite Hw, str_app_assoc. reflexivity.
  - intros pre post ss Hpre.
    destruct (result_not_Ok (CodeGenVisitor.CodeGen (build_id_to_idx_map parameters) e))
      as (err & He).
    { intros s. apply CodeGen_unsupported_not_Ok. exact Hu. }
    exists err. split; [exact He|].
    cbv [internal.CodeGenData sink_bind write].
    rewrite (emit_assignments_first_error _ _ _ _ _ _ 0 _ Hpre He).
    rewrite !str_app_assoc. reflexivity.
Qed.

Lemma C6_witness :
  has_unsupported (EUninterpretedFunction "g" [EVariable var_x]) = true /\
  vars_bound (build_id_to_idx_map [var_x]) (EUninterpretedFunction "g" [EVariable var_x]) = true /\
  (exists msg, CodeGenVisitor.CodeGen (build_id_to_idx_map [var_x])
                 (EUninterpretedFunction "g" [EVariable var_x]) = Err (UnsupportedConstruct msg)) /\
  Forall2 (fun d s => CodeGenVisitor.CodeGen (build_id_to_idx_map [var_x]) d = Ok s)
    [EVariable var_x] ["p[0]"] /\
  exists err,
    CodeGenVisitor.CodeGen (build_id_to_idx_map [var_x])
      (EUninterpretedFunction "g" [EVariable var_x]) = Err err /\
    internal.CodeGenData "f" [var_x]
      ([EVariable var_x] ++ EUninterpretedFunction "g" [EVariable var_x] :: [EVariable var_x]) "" =
    ("" ++ internal.data_header_text "f" ++
     foldr String.append "" (imap internal.assignment_text ["p[0]"]) ++
     "    m[" ++ int_to_string (Z.of_nat (length [EVariable var_x])) ++ "] = ", Err err).
Proof.
  assert (Hpre : Forall2 (fun d s => CodeGenVisitor.CodeGen (build_id_to_idx_map [var_x]) d = Ok s)
                   [EVariable var_x] ["p[0]"]).
  { constructor; [vm_compute; reflexivity | constructor]. }
  split; [reflexivity|]. split; [reflexivity|].
  split.
  { exact (proj1 (proj2 (C6_unsupported_rejection (build_id_to_idx_map [var_x])
                           (EUninterpretedFunction "g" [EVariable var_x]) "f" [var_x] [] ""
                           eq_refl)) eq_refl). }
  split; [exact Hpre|].
  exact (proj2 (proj2 (proj2 (proj2 (C6_unsupported_rejection (build_id_to_idx_map [var_x])
           (EUninterpretedFunction "g" [EVariable var_x]) "f" [var_x] [] "" eq_refl))))
           [EVariable var_x] [EVariable var_x] ["p[0]"] Hpre).
Defined.

(** C7: a batch request comes with a matrix, so the size of the data
    always equals [rows * cols] and no shape mismatch reaches the emitter;
    every error of a request is the lowering error of one of its entries.
    When every entry lowers, the function has exactly one line
    ["    m[i] = <lowered data[i]>;"] for each flattened index [i] in
    [[0, rows * cols)], in the order of the data. *)
Theorem C7_batch_emission (function_name : string) (parameters : list variable)
    (M : ExpressionMatrix) (os : string) :
  Z.of_nat (length (mat_data M)) = mat_rows M * mat_cols M /\
  (forall os' err, CodeGen_matrix function_name parameters M os = (os', Err err) ->
   exists d, In d (mat_data M) /\
     CodeGenVisitor.CodeGen (build_id_to_idx_map parameters) d = Err err) /\
  (forall ss : list string,
   Forall2 (fun d s => CodeGenVisitor.CodeGen (build_id_to_idx_map parameters) d = Ok s)
     (mat_data M) ss ->
   length ss = Z.to_nat (mat_rows M * mat_cols M) /\
   CodeGen_matrix function_name parameters M os =
   (os ++ internal.data_header_text function_name ++
    foldr String.append "" (imap internal.assignment_text ss) ++ "}" ++ nl ++
    internal.meta_typedef_text function_name ++
    internal.meta_accessor_text function_name (Z.of_nat (length parameters))
      (mat_rows M) (mat_cols M),
    Ok tt)).
Proof.
  destruct M as [rows cols data Hr Hc Hshape]. cbn [mat_rows mat_cols mat_data].
  assert (Hall : firstn (Z.to_nat (cols * rows)) data = data).
  { rewrite Z.mul_comm, <- Hshape, Nat2Z.id. apply firstn_all. }
  unfold CodeGen_matrix. cbn [mat_rows mat_cols mat_data]. rewrite Hall.
  split; [exact Hshape|]. split.
  - intros os' err Hrun. cbv [internal.CodeGenData internal.CodeGenMeta sink_bind write] in Hrun.
    destruct (internal.emit_assignments (build_id_to_idx_map parameters) 0 data
                (os ++ internal.data_header_text function_name)) as [os1 [[]|e1]] eqn:E.
    + discriminate.
    + injection Hrun as _ <-. exact (emit_assignments_Err_source _ _ _ _ _ _ E).
  - intros ss Hss. split.
    + rewrite <- (Forall2_length _ _ _ Hss), <- Hshape, Nat2Z.id. reflexivity.
    + cbv [internal.CodeGenData internal.CodeGenMeta sink_bind write].
      rewrite (emit_assignments_Ok _ _ _ Hss 0). rewrite !str_app_assoc. reflexivity.
Qed.

Lemma C7_witness :
  Forall2 (fun d s => CodeGenVisitor.CodeGen (build_id_to_idx_map [var_x; var_y]) d = Ok s)
    (mat_data matrix_sum_prod) ["(0 + p[0] + p[1])"; "(1 * p[0] * p[1])"] /\
  length ["(0 + p[0] + p[1])"; "(1 * p[0] * p[1])"] = Z.to_nat (2 * 1) /\
  CodeGen_matrix "f" [var_x; var_y] matrix_sum_prod ""
  = ("" ++ internal.data_header_text "f" ++
     foldr String.append "" (imap internal.assignment_text
                               ["(0 + p[0] + p[1])"; "(1 * p[0] * p[1])"]) ++ "}" ++ nl ++
     internal.meta_typedef_text "f" ++ internal.meta_accessor_text "f" 2 2 1, Ok tt).
Proof.
  assert (Hss : Forall2 (fun d s => CodeGenVisitor.CodeGen (build_id_to_idx_map [var_x; var_y]) d = Ok s)
                  (mat_data matrix_sum_prod) ["(0 + p[0] + p[1])"; "(1 * p[0] * p[1])"]).
  { constructor; [vm_compute; reflexivity|].
    constructor; [vm_compute; reflexivity|]. constructor. }
  split; [exact Hss|].
  exact (proj2 (proj2 (C7_batch_emission "f" [var_x; var_y] matrix_sum_prod "")) _ Hss).
Defined.

(** C8: the scalar meta accessor returns [{{len(parameters)}}]; the batch
    meta accessor returns [{{len(parameters)}, {rows, cols}}]. *)
Theorem C8_meta_shape (function_name : string) (parameters : list variable)
    (e : Expression) (s : string) (data : list Expression) (rows cols : Z)
    (os os' : string) :
  (CodeGen function_name parameters e = Ok s ->
   exists pre, s = pre ++ function_name ++ "_meta_t " ++ function_name ++
                   "_meta() { return {{" ++ int_to_string (Z.of_nat (length parameters)) ++
                   "}}; }" ++ nl) /\
  (CodeGenBatch function_name parameters data rows cols os = (os', Ok tt) ->
   exists pre, os' = pre ++ internal.meta_accessor_text function_name
                             (Z.of_nat (length parameters)) rows cols).
Proof.
  split.
  - intros Hs. unfold CodeGen in Hs. apply rbind_Ok in Hs as (body & _ & Hs).
    injection Hs as <-. unfold scalar_meta_text.
    exists ("double " ++ function_name ++ "(const double* p) {" ++ nl ++
            "    return " ++ body ++ ";" ++ nl ++ "}" ++ nl ++
            "typedef struct {" ++ nl ++ "    /* p: input, vector */" ++ nl ++
            "    struct { int size; } p;" ++ nl ++ "} " ++ function_name ++ "_meta_t;" ++ nl).
    str_norm. reflexivity.
  - unfold CodeGenBatch, sink_bind at 1.
    destruct (internal.CodeGenData function_name parameters data os) as [os1 [[]|err]];
      [|discriminate].
    cbv [internal.CodeGenMeta sink_bind write]. intros H. injection H as <-.
    exists (os1 ++ internal.meta_typedef_text function_name). reflexivity.
Qed.

Lemma C8_witness :
  (exists s, CodeGen "f" [var_x; var_y] (EVariable var_x) = Ok s /\
   exists pre, s = pre ++ "f" ++ "_meta_t " ++ "f" ++ "_meta() { return {{" ++
                   int_to_string 2 ++ "}}; }" ++ nl) /\
  (exists os', CodeGenBatch "f" [var_x; var_y] [EVariable var_x; EVariable var_y] 2 1 ""
                 = (os', Ok tt) /\
   exists pre, os' = pre ++ internal.meta_accessor_text "f" 2 2 1).
Proof.
  split; eexists; (split; [vm_compute; reflexivity|]).
  - eapply (proj1 (C8_meta_shape "f" [var_x; var_y] (EVariable var_x) _ [] 0 0 "" "")).
    vm_compute. reflexivity.
  - eapply (proj2 (C8_meta_shape "f" [var_x; var_y] (EVariable var_x) ""
                     [EVariable var_x; EVariable var_y] 2 1 "" _)).
    vm_compute. reflexivity.
Defined.

(** C9: the output depends only on the expression and the order of the
    parameter identities, and a batch request appends the same text to any
    sink, so two independent calls produce identical text. *)
Theorem C9_determinism (function_name : string) :
  (forall (p1 p2 : list variable) (e : Expression),
     map var_id p1 = map var_id p2 ->
     CodeGen function_name p1 e = CodeGen function_name p2 e) /\
  (forall (parameters : list variable) (data : list Expression) (rows cols : Z),
     exists w r, forall os1 os2,
       CodeGenBatch function_name parameters data rows cols os1 = (os1 ++ w, r) /\
       CodeGenBatch function_name parameters data rows cols os2 = (os2 ++ w, r)).
Proof.
  split.
  - intros p1 p2 e Hids. unfold CodeGen, build_id_to_idx_map.
    rewrite (build_map_from_ids 0 p1 p2 ∅ Hids).
    apply (f_equal length) in Hids. rewrite !length_map in Hids. rewrite Hids.
    reflexivity.
  - intros parameters data rows cols.
    assert (Hb : exists w r, sink_appends (CodeGenBatch function_name parameters data rows cols) w r).
    { destruct (CodeGenData_appends function_name parameters data) as (w & r & Hw).
      unfold CodeGenBatch. eapply sink_bind_appends; [exact Hw|]. intros [] _.
      apply CodeGenMeta_appends. }
    destruct Hb as (w & r & Hw). exists w, r. intros os1 os2. split; apply Hw.
Qed.

Lemma C9_witness :
  map var_id [var_x] = map var_id [var_x_again] /\
  CodeGen "f" [var_x] (EVariable var_x) = CodeGen "f" [var_x_again] (EVariable var_x).
Proof.
  split; [reflexivity|].
  apply (proj1 (C9_determinism "f")). reflexivity.
Defined.

(* ------------------------------------------------------------------ *)
(** ** Bracket structure of the emitted text *)

Lemma match_brackets_app a b st :
  match_brackets (a ++ b) st =
  match match_brackets a st with Some st' => match_brackets b st' | None => None end.
Proof.
  revert st. induction a as [|c a IH]; intros st; [reflexivity|].
  cbn [String.append match_brackets].
  destruct (closer_of c); [apply IH|]. destruct (is_closer c); [|apply IH].
  destruct st as [|t st]; [reflexivity|]. destruct (Ascii.eqb t c); [apply IH|reflexivity].
Qed.

Lemma match_brackets_stack a st0 r st :
  match_brackets a st0 = Some r -> match_brackets a (st0 ++ st)%list = Some (r ++ st)%list.
Proof.
  revert st0. induction a as [|c a IH]; intros st0 H; cbn [match_brackets] in *.
  - congruence.
  - destruct (closer_of c) as [c'|]; [apply (IH (c' :: st0)); exact H|].
    destruct (is_closer c); [|apply IH, H].
    destruct st0 as [|t st0]; [discriminate|]. simpl.
    destruct (Ascii.eqb t c); [apply IH, H|discriminate].
Qed.

Lemma balanced_neutral s : balanced s = true <-> bracket_neutral s.
Proof.
  unfold balanced, bracket_neutral. split.
  - intros H st. destruct (match_brackets s []) as [[|t l]|] eqn:E; try discriminate.
    exact (match_brackets_stack s [] [] st E).
  - intros H. rewrite (H []). reflexivity.
Qed.

Lemma no_brackets_neutral s : no_brackets s = true -> bracket_neutral s.
Proof.
  induction s as [|c s IH]; intros H st; [reflexivity|]. cbn [no_brackets] in H.
  apply andb_true_iff in H as [H Hs]. apply andb_true_iff in H as [Hc Ho].
  cbn [match_brackets]. destruct (closer_of c); [discriminate|].
  destruct (is_closer c); [discriminate|]. apply IH; exact Hs.
Qed.

Lemma no_brackets_app a b :
  no_brackets (a ++ b) = no_brackets a && no_brackets b.
Proof.
  induction a as [|c a IH]; [reflexivity|]. cbn [String.append no_brackets].
  rewrite IH. destruct (negb _), (match closer_of c with None => true | Some _ => false end);
    reflexivity.
Qed.

Lemma digit_no_bracket c : is_digit c = true ->
  is_closer c = false /\ closer_of c = None.
Proof.
  intros Hd. unfold is_closer, closer_of.
  destruct (Ascii.eqb_spec c "("%char) as [->|]; [discriminate|].
  destruct (Ascii.eqb_spec c "["%char) as [->|]; [discriminate|].
  destruct (Ascii.eqb_spec c "{"%char) as [->|]; [discriminate|].
  destruct (Ascii.eqb_spec c ")"%char) as [->|]; [discriminate|].
  destruct (Ascii.eqb_spec c "]"%char) as [->|]; [discriminate|].
  destruct (Ascii.eqb_spec c "}"%char) as [->|]; [discriminate|].
  split; reflexivity.
Qed.

Lemma all_digits_no_brackets s : all_digits s = true -> no_brackets s = true.
Proof.
  induction s as [|c s IH]; intros H; [reflexivity|]. cbn [all_digits] in H.
  apply andb_true_iff in H as [Hc Hs]. destruct (digit_no_bracket c Hc) as [H1 H2].
  cbn [no_brackets]. rewrite H1, H2, IH by exact Hs. reflexivity.
Qed.

Lemma dec_aux_all_digits f n acc :
  all_digits acc = true -> all_digits (dec_aux f n acc) = true.
Proof.
  revert n acc. induction f as [|f IH]; intros n acc H; [exact H|]. cbn [dec_aux].
  assert (Hc : all_digits (String (digit_char (n mod 10)) acc) = true).
  { cbn [all_digits]. rewrite H, andb_true_r.
    apply digit_char_ok, Z.mod_pos_bound. lia. }
  destruct (n / 10 =? 0); [exact Hc | apply IH, Hc].
Qed.

Lemma fixed_digits_all_digits k n : all_digits (fixed_digits k n) = true.
Proof.
  revert n. induction k as [|k IH]; intros n; [reflexivity|]. cbn [fixed_digits].
  rewrite all_digits_app, IH. cbn [all_digits]. rewrite andb_true_r.
  apply digit_char_ok, Z.mod_pos_bound. lia.
Qed.

Lemma strip_trailing_zeros_no_brackets s :
  no_brackets s = true -> no_brackets (strip_trailing_zeros s) = true.
Proof.
  induction s as [|c s IH]; intros H; [reflexivity|]. cbn [no_brackets] in H.
  apply andb_true_iff in H as [Hc Hs]. cbn [strip_trailing_zeros].
  destruct (String.eqb _ "" && Ascii.eqb c "0"%char); [reflexivity|].
  cbn [no_brackets]. rewrite Hc, IH by exact Hs. reflexivity.
Qed.

Lemma dec_nonneg_no_brackets n : no_brackets (dec_nonneg n) = true.
Proof. apply all_digits_no_brackets, dec_aux_all_digits. reflexivity. Qed.

Lemma fixed_digits_no_brackets k n : no_brackets (fixed_digits k n) = true.
Proof. apply all_digits_no_brackets, fixed_digits_all_digits. Qed.

Lemma int_to_string_no_brackets n : no_brackets (int_to_string n) = true.
Proof.
  unfold int_to_string. destruct (n <? 0); [|apply dec_nonneg_no_brackets].
  rewrite no_brackets_app, dec_nonneg_no_brackets. reflexivity.
Qed.

Lemma sign_text_no_brackets x : no_brackets (sign_text x) = true.
Proof. unfold sign_text. destruct (mant x <? 0); reflexivity. Qed.

Lemma to_string_double_no_brackets x : no_brackets (to_string_double x) = true.
Proof.
  unfold to_string_double.
  rewrite !no_brackets_app, sign_text_no_brackets, dec_nonneg_no_brackets,
    fixed_digits_no_brackets. reflexivity.
Qed.

Lemma point_frac_no_brackets f : no_brackets f = true -> no_brackets (point_frac f) = true.
Proof.
  intros H. unfold point_frac. destruct (String.eqb f ""); [reflexivity|].
  rewrite no_brackets_app, H. reflexivity.
Qed.

Lemma exponent_text_no_brackets x : no_brackets (exponent_text x) = true.
Proof.
  unfold exponent_text. rewrite !no_brackets_app, dec_nonneg_no_brackets.
  destruct (x <? 0), (Z.abs x <? 10); reflexivity.
Qed.

Lemma fmt_g_no_brackets x : no_brackets (fmt_g x) = true.
Proof.
  unfold fmt_g. destruct (Z.abs (dnum x) =? 0); [reflexivity|].
  match goal with |- context [let '(n, X) := ?p in _] => destruct p as [n X] end.
  destruct ((-4 <=? X) && (X <? 6));
    rewrite !no_brackets_app, sign_text_no_brackets, dec_nonneg_no_brackets,
      point_frac_no_brackets
      by apply strip_trailing_zeros_no_brackets, fixed_digits_no_brackets;
    [reflexivity|]. rewrite exponent_text_no_brackets. reflexivity.
Qed.


(** Proves [bracket_neutral] facts of the pieces of an emitted text. *)
Ltac neutral_fact :=
  first
    [ assumption
    | apply no_brackets_neutral;
      first
        [ apply int_to_string_no_brackets | apply fmt_g_no_brackets
        | apply to_string_double_no_brackets | assumption
        | match goal with |- no_brackets (unary_fn_name ?k) = _ => destruct k; reflexivity end
        | match goal with |- no_brackets (binary_fn_name ?k) = _ => destruct k; reflexivity end
        | match goal with |- no_brackets nl = _ => reflexivity end ] ].

(** One step of scanning an emitted text: a literal character, a piece
    known to be neutral, or a split of an append. *)
Ltac scan_step :=
  match goal with
  | |- Some ?x = Some ?x => reflexivity
  | |- context [match_brackets (String ?c ?r) ?st] =>
      let e := eval cbn [match_brackets closer_of is_closer Ascii.eqb Bool.eqb andb orb negb]
               in (match_brackets (String c r) st) in
      progress change (match_brackets (String c r) st) with e
  | |- context [match_brackets (?s ++ ?b) ?st] =>
      let Hn := fresh "Hn" in
      assert (Hn : bracket_neutral s) by neutral_fact;
      rewrite (match_brackets_app s b st), (Hn st); clear Hn
  | |- context [match_brackets ?s ?st] =>
      let Hn := fresh "Hn" in
      assert (Hn : bracket_neutral s) by neutral_fact; rewrite (Hn st); clear Hn
  | |- context [match_brackets (?a ++ ?b) ?st] => rewrite (match_brackets_app a b st)
  end; cbv beta iota.

Ltac scan :=
  let st := fresh "st" in
  intros st; rewrite ?str_app_assoc; try unfold nl;
  try change (ascii_of_nat 10) with "010"%char; cbn [String.append]; repeat scan_step.

Lemma Forall2_Forall_r {A B} (P : A -> B -> Prop) (Q : A -> Prop) (R : B -> Prop) l ts :
  Forall2 P l ts -> Forall Q l -> (forall t u, P t u -> Q t -> R u) -> Forall R ts.
Proof.
  induction 1 as [|t u l ts Htu Hrest IH]; intros HQ HR; [constructor|].
  apply Forall_cons_iff in HQ as [Ht HQ].
  apply List.Forall_cons; [exact (HR t u Htu Ht) | exact (IH HQ HR)].
Qed.

Lemma neutral_terms_fold (sep : string) ts :
  no_brackets sep = true -> Forall bracket_neutral ts ->
  bracket_neutral (foldr (fun u acc => sep ++ u ++ acc) "" ts).
Proof.
  intros Hsep. induction 1 as [|u ts Hu Hts IH]; intros st; [reflexivity|].
  cbn [foldr]. rewrite match_brackets_app, (no_brackets_neutral _ Hsep st).
  cbv beta iota. rewrite match_brackets_app, (Hu st). apply IH.
Qed.

Lemma neutral_imap_fold (f : nat -> string -> string) ss :
  (forall k s, bracket_neutral s -> bracket_neutral (f k s)) -> Forall bracket_neutral ss ->
  bracket_neutral (foldr String.append "" (imap f ss)).
Proof.
  intros Hf Hss. revert f Hf. induction Hss as [|s ss Hs Hss IH]; intros f Hf st;
    [reflexivity|].
  cbn [imap foldr]. rewrite match_brackets_app, (Hf 0%nat s Hs st).
  cbv beta iota. apply (IH (f ∘ S)). intros k t Ht. apply Hf, Ht.
Qed.

Lemma lowering_neutral m e :
  forall s, CodeGenVisitor.CodeGen m e = Ok s -> bracket_neutral s.
Proof.
  induction e using expression_ind'; intros s Hs.
  - simpl in Hs. destruct (m !! var_id v); [|discriminate]. injection Hs as <-. scan.
  - simpl in Hs. injection Hs as <-. apply no_brackets_neutral, to_string_double_no_brackets.
  - rewrite CodeGen_addition, rbind_Ok in Hs. destruct Hs as (body & Hb & Hs).
    injection Hs as <-. apply addition_terms_Ok in Hb as (ts & Hts & ->).
    assert (Hbody : bracket_neutral (foldr (fun u acc => " + " ++ u ++ acc) "" ts)).
    { apply neutral_terms_fold; [reflexivity|].
      eapply Forall2_Forall_r; [exact Hts | exact H |].
      intros [e_i c_i] u (s_i & Hi & ->) IHi. cbn [fst snd] in *. specialize (IHi s_i Hi).
      destruct (double_eqb c_i one); [exact IHi|]. scan. }
    scan.
  - rewrite CodeGen_multiplication, rbind_Ok in Hs. destruct Hs as (body & Hb & Hs).
    injection Hs as <-. apply multiplication_factors_Ok in Hb as (ts & Hts & ->).
    assert (Hbody : bracket_neutral (foldr (fun u acc => " * " ++ u ++ acc) "" ts)).
    { apply neutral_terms_fold; [reflexivity|].
      eapply Forall2_Forall_r; [exact Hts | exact H |].
      intros [e_1 e_2] u Hu [IH1 IH2]. cbn [fst snd] in *.
      destruct (is_one e_2); [exact (IH1 _ Hu)|].
      destruct Hu as (s1 & s2 & H1 & H2 & ->).
      specialize (IH1 _ H1). specialize (IH2 _ H2). scan. }
    scan.
  - simpl in Hs. apply rbind_Ok in Hs as (s1 & H1 & Hs).
    apply rbind_Ok in Hs as (s2 & H2 & Hs). injection Hs as <-.
    specialize (IHe1 _ H1). specialize (IHe2 _ H2). scan.
  - simpl in Hs. apply rbind_Ok in Hs as (s1 & H1 & Hs). injection Hs as <-.
    specialize (IHe _ H1). scan.
  - simpl in Hs. apply rbind_Ok in Hs as (s1 & H1 & Hs).
    apply rbind_Ok in Hs as (s2 & H2 & Hs). injection Hs as <-.
    specialize (IHe1 _ H1). specialize (IHe2 _ H2). scan.
  - discriminate.
  - discriminate.
Qed.

Lemma emit_assignments_Ok_inv m i data os os' :
  internal.emit_assignments m i data os = (os', Ok tt) ->
  exists ss, Forall2 (fun d s => CodeGenVisitor.CodeGen m d = Ok s) data ss.
Proof.
  revert i os. induction data as [|d data IH]; intros i os H.
  - exists []. constructor.
  - simpl in H. unfold sink_bind at 1, write at 1 in H. unfold sink_bind at 1, lift in H.
    destruct (CodeGenVisitor.CodeGen m d) as [s|err] eqn:Hd; [|discriminate].
    unfold sink_bind at 1, write at 1 in H. apply IH in H as (ss & Hss).
    exists (s :: ss). constructor; assumption.
Qed.

Lemma CodeGenBatch_Ok_inv function_name parameters data rows cols os os' :
  CodeGenBatch function_name parameters data rows cols os = (os', Ok tt) ->
  exists ss, Forall2 (fun d s =>
    CodeGenVisitor.CodeGen (build_id_to_idx_map parameters) d = Ok s) data ss.
Proof.
  cbv [CodeGenBatch internal.CodeGenData sink_bind write].
  destruct (internal.emit_assignments _ 0 data _) as [os1 [[]|err]] eqn:E;
    [|discriminate].
  intros _. exact (emit_assignments_Ok_inv _ _ _ _ _ E).
Qed.

(** Every successful lowering is a text whose brackets [( ) [ ]] are all
    closed, by one of their kind, in nesting order. *)
Theorem lowering_balanced (m : IdToIndexMap) (e : Expression) (s : string) :
  CodeGenVisitor.CodeGen m e = Ok s -> balanced s = true.
Proof. intros H. apply balanced_neutral. exact (lowering_neutral m e s H). Qed.

Lemma lowering_balanced_witness :
  CodeGenVisitor.CodeGen (build_id_to_idx_map [var_x; var_y])
    (EDivision (EUnary KSin (EVariable var_x))
       (EMultiplication (d_of_Z 3) [(EVariable var_y, EConstant (d_of_Z 2))]))
  = Ok "(sin(p[0]) / (3 * pow(p[1], 2.000000)))" /\
  balanced "(sin(p[0]) / (3 * pow(p[1], 2.000000)))" = true.
Proof.
  assert (H : CodeGenVisitor.CodeGen (build_id_to_idx_map [var_x; var_y])
    (EDivision (EUnary KSin (EVariable var_x))
       (EMultiplication (d_of_Z 3) [(EVariable var_y, EConstant (d_of_Z 2))]))
    = Ok "(sin(p[0]) / (3 * pow(p[1], 2.000000)))") by (vm_compute; reflexivity).
  split; [exact H | exact (lowering_balanced _ _ _ H)].
Defined.

(** With a function name free of brackets, the whole text of a successful
    scalar [CodeGen] (function, meta type and meta accessor) has balanced
    brackets [( ) [ ] { }]. *)
Theorem CodeGen_balanced (function_name : string) (parameters : list variable)
    (e : Expression) (s : string) :
  no_brackets function_name = true ->
  CodeGen function_name parameters e = Ok s -> balanced s = true.
Proof.
  intros Hname H. unfold CodeGen in H. apply rbind_Ok in H as (body & Hb & H).
  injection H as <-. pose proof (lowering_neutral _ _ _ Hb) as Hbody.
  apply balanced_neutral. unfold scalar_meta_text. scan.
Qed.

Lemma CodeGen_balanced_witness :
  no_brackets "f" = true /\
  (exists s, CodeGen "f" [var_x; var_y] (EDivision (EVariable var_x) (EVariable var_y)) = Ok s /\
             balanced s = true).
Proof.
  split; [reflexivity|]. eexists. split; [vm_compute; reflexivity|].
  eapply (CodeGen_balanced "f" [var_x; var_y] (EDivision (EVariable var_x) (EVariable var_y)));
    [reflexivity | vm_compute; reflexivity].
Defined.

(** With a function name free of brackets, a successful batch request
    appends to the sink a text whose brackets [( ) [ ] { }] are balanced. *)
Theorem CodeGenBatch_balanced (function_name : string) (parameters : list variable)
    (data : list Expression) (rows cols : Z) (os os' : string) :
  no_brackets function_name = true ->
  CodeGenBatch function_name parameters data rows cols os = (os', Ok tt) ->
  exists w, os' = os ++ w /\ balanced w = true.
Proof.
  intros Hname H. destruct (CodeGenBatch_Ok_inv _ _ _ _ _ _ _ H) as (ss & Hss).
  assert (Hall : Forall bracket_neutral ss).
  { eapply (Forall2_Forall_r _ (fun _ => True)); [exact Hss | apply List.Forall_forall; auto|].
    intros d s Hd _. exact (lowering_neutral _ _ _ Hd). }
  assert (Hlines : bracket_neutral (foldr String.append ""
            (imap (fun k s => internal.assignment_text (0 + k) s) ss))).
  { apply neutral_imap_fold; [|exact Hall]. intros k t Ht.
    unfold internal.assignment_text. scan. }
  revert H. cbv [CodeGenBatch internal.CodeGenData internal.CodeGenMeta sink_bind write].
  rewrite (emit_assignments_Ok _ _ _ Hss 0). intros H. injection H as <-.
  exists (internal.data_header_text function_name ++
          foldr String.append "" (imap (fun k s => internal.assignment_text (0 + k) s) ss) ++
          "}" ++ nl ++ internal.meta_typedef_text function_name ++
          internal.meta_accessor_text function_name (Z.of_nat (length parameters)) rows cols).
  split; [rewrite !str_app_assoc; reflexivity|].
  apply balanced_neutral.
  unfold internal.data_header_text, internal.meta_typedef_text, internal.meta_accessor_text.
  scan.
Qed.

Lemma CodeGenBatch_balanced_witness :
  no_brackets "f" = true /\
  (exists os', CodeGenBatch "f" [var_x; var_y] [EVariable var_x; EVariable var_y] 2 1 ""
                 = (os', Ok tt) /\
   exists w, os' = "" ++ w /\ balanced w = true).
Proof.
  split; [reflexivity|]. eexists. split; [vm_compute; reflexivity|].
  eapply (CodeGenBatch_balanced "f" [var_x; var_y] [EVariable var_x; EVariable var_y] 2 1 "");
    [reflexivity | vm_compute; reflexivity].
Defined.

(* ------------------------------------------------------------------ *)
(** ** When lowering succeeds, and how it fails *)

Lemma lowering_Ok_vars_bound m e :
  forall s, CodeGenVisitor.CodeGen m e = Ok s -> vars_bound m e = true.
Proof.
  induction e using expression_ind'; intros s Hs.
  - simpl in Hs. simpl. destruct (m !! var_id v); [|discriminate].
    apply bool_decide_eq_true. eexists. reflexivity.
  - reflexivity.
  - rewrite CodeGen_addition, rbind_Ok in Hs. destruct Hs as (body & Hb & _).
    apply addition_terms_Ok in Hb as (ts & Hts & _). simpl. apply forallb_forall.
    intros [e_i c_i] Hin. rewrite List.Forall_forall in H.
    destruct (Forall2_In_l _ _ _ _ Hts Hin) as (u & s_i & Hi & _).
    exact (H _ Hin s_i Hi).
  - rewrite CodeGen_multiplication, rbind_Ok in Hs. destruct Hs as (body & Hb & _).
    apply multiplication_factors_Ok in Hb as (ts & Hts & _). simpl. apply forallb_forall.
    intros [e_1 e_2] Hin. rewrite List.Forall_forall in H.
    destruct (H _ Hin) as [IH1 IH2]. cbn [fst snd] in IH1, IH2.
    destruct (Forall2_In_l _ _ _ _ Hts Hin) as (u & Hu). cbn [fst snd] in Hu.
    destruct (is_one e_2) eqn:Hone.
    + rewrite (IH1 _ Hu). destruct e_2; try discriminate. reflexivity.
    + destruct Hu as (s1 & s2 & H1 & H2 & _). rewrite (IH1 _ H1), (IH2 _ H2). reflexivity.
  - simpl in Hs. apply rbind_Ok in Hs as (s1 & H1 & Hs). apply rbind_Ok in Hs as (s2 & H2 & _).
    simpl. rewrite (IHe1 _ H1), (IHe2 _ H2). reflexivity.
  - simpl in Hs. apply rbind_Ok in Hs as (s1 & H1 & _). simpl. exact (IHe _ H1).
  - simpl in Hs. apply rbind_Ok in Hs as (s1 & H1 & Hs). apply rbind_Ok in Hs as (s2 & H2 & _).
    simpl. rewrite (IHe1 _ H1), (IHe2 _ H2). reflexivity.
  - discriminate.
  - discriminate.
Qed.

Lemma lowering_Ok_of_supported m e :
  has_unsupported e = false -> vars_bound m e = true ->
  exists s, CodeGenVisitor.CodeGen m e = Ok s.
Proof.
  induction e using expression_ind'; intros Hu Hb; simpl in Hu, Hb.
  - simpl. apply bool_decide_eq_true in Hb as [i Hi]. rewrite Hi. eexists. reflexivity.
  - eexists. reflexivity.
  - assert (Hbody : exists body, addition_terms m l = Ok body).
    { induction l as [|[e_i c_i] l IHl]; [eexists; reflexivity|].
      apply Forall_cons_iff in H as [Hi H]. cbn [fst] in Hi.
      cbn [existsb forallb] in Hu, Hb.
      apply orb_false_iff in Hu as [Hu1 Hu2]. apply andb_true_iff in Hb as [Hb1 Hb2].
      destruct (Hi Hu1 Hb1) as (s_i & Hs_i). destruct (IHl H Hu2 Hb2) as (rest & Hr).
      eexists. cbn [addition_terms]. rewrite Hs_i. cbn [rbind]. rewrite Hr. reflexivity. }
    destruct Hbody as (body & Hbody). rewrite CodeGen_addition, Hbody.
    eexists. reflexivity.
  - assert (Hbody : exists body, multiplication_factors m l = Ok body).
    { induction l as [|[e_1 e_2] l IHl]; [eexists; reflexivity|].
      apply Forall_cons_iff in H as [[Hi1 Hi2] H]. cbn [fst snd] in Hi1, Hi2.
      cbn [existsb forallb] in Hu, Hb.
      apply orb_false_iff in Hu as [Hu1 Hu2]. apply orb_false_iff in Hu1 as [Hu1 Hu1'].
      apply andb_true_iff in Hb as [Hb1 Hb2]. apply andb_true_iff in Hb1 as [Hb1 Hb1'].
      destruct (Hi1 Hu1 Hb1) as (s1 & Hs1). destruct (Hi2 Hu1' Hb1') as (s2 & Hs2).
      destruct (IHl H Hu2 Hb2) as (rest & Hr).
      cbn [multiplication_factors]. rewrite Hs1.
      destruct (is_one e_2); cbn [rbind]; [|rewrite Hs2; cbn [rbind]]; rewrite Hr;
        eexists; reflexivity. }
    destruct Hbody as (body & Hbody). rewrite CodeGen_multiplication, Hbody.
    eexists. reflexivity.
  - apply orb_false_iff in Hu as [Hu1 Hu2]. apply andb_true_iff in Hb as [Hb1 Hb2].
    destruct (IHe1 Hu1 Hb1) as (s1 & H1). destruct (IHe2 Hu2 Hb2) as (s2 & H2).
    simpl. rewrite H1, H2. eexists. reflexivity.
  - destruct (IHe Hu Hb) as (s1 & H1). simpl. rewrite H1. eexists. reflexivity.
  - apply orb_false_iff in Hu as [Hu1 Hu2]. apply andb_true_iff in Hb as [Hb1 Hb2].
    destruct (IHe1 Hu1 Hb1) as (s1 & H1). destruct (IHe2 Hu2 Hb2) as (s2 & H2).
    simpl. rewrite H1, H2. eexists. reflexivity.
  - discriminate.
  - discriminate.
Qed.

(** Lowering succeeds exactly on the expressions with no if-then-else and no
    uninterpreted-function node whose variables are all in the id map. *)
Theorem lowering_Ok_iff (m : IdToIndexMap) (e : Expression) :
  (exists s, CodeGenVisitor.CodeGen m e = Ok s) <->
  has_unsupported e = false /\ vars_bound m e = true.
Proof.
  split.
  - intros (s & Hs). split; [|exact (lowering_Ok_vars_bound m e s Hs)].
    destruct (has_unsupported e) eqn:Hu; [|reflexivity].
    exfalso. exact (CodeGen_unsupported_not_Ok m e Hu s Hs).
  - intros [Hu Hb]. exact (lowering_Ok_of_supported m e Hu Hb).
Qed.

Lemma lowering_Err_msg m e err :
  CodeGenVisitor.CodeGen m e = Err err ->
  err = UnboundVariable \/
  (has_unsupported e = true /\
   (err = UnsupportedConstruct "Codegen does not support if-then-else expressions." \/
    err = UnsupportedConstruct "Codegen does not support uninterpreted functions.")).
Proof.
  revert err. induction e using expression_ind'; intros err He.
  - simpl in He. destruct (m !! var_id v); [discriminate|]. injection He as <-. auto.
  - discriminate.
  - rewrite CodeGen_addition in He. apply rbind_Err in He as [He|(body & _ & He)];
      [|discriminate].
    apply addition_terms_Err in He as ([e_i c_i] & Hin & Hi).
    rewrite List.Forall_forall in H. destruct (H _ Hin _ Hi) as [->|[Hu Hmsg]]; [auto|].
    right. split; [|exact Hmsg]. simpl. apply existsb_exists. exists (e_i, c_i). auto.
  - rewrite CodeGen_multiplication in He.
    apply rbind_Err in He as [He|(body & _ & He)]; [|discriminate].
    apply multiplication_factors_Err in He as ([e_1 e_2] & Hin & Hi).
    rewrite List.Forall_forall in H. destruct (H _ Hin) as [H1 H2].
    destruct Hi as [Hi|Hi]; [destruct (H1 _ Hi) as [->|[Hu Hmsg]] | destruct (H2 _ Hi) as [->|[Hu Hmsg]]];
      auto; right; (split; [|exact Hmsg]); simpl; apply existsb_exists;
      exists (e_1, e_2); cbn [fst snd] in Hu; rewrite Hu; auto using orb_true_r.
  - simpl in He. apply rbind_Err in He as [He|(s1 & _ & He)].
    + destruct (IHe1 _ He) as [->|[Hu Hmsg]]; [auto|]. right. simpl. rewrite Hu. auto.
    + apply rbind_Err in He as [He|(s2 & _ & He)]; [|discriminate].
      destruct (IHe2 _ He) as [->|[Hu Hmsg]]; [auto|]. right. simpl.
      rewrite Hu, orb_true_r. auto.
  - simpl in He. apply rbind_Err in He as [He|(s1 & _ & He)]; [|discriminate].
    destruct (IHe _ He) as [->|[Hu Hmsg]]; [auto|]. right. simpl. rewrite Hu. auto.
  - simpl in He. apply rbind_Err in He as [He|(s1 & _ & He)].
    + destruct (IHe1 _ He) as [->|[Hu Hmsg]]; [auto|]. right. simpl. rewrite Hu. auto.
    + apply rbind_Err in He as [He|(s2 & _ & He)]; [|discriminate].
      destruct (IHe2 _ He) as [->|[Hu Hmsg]]; [auto|]. right. simpl.
      rewrite Hu, orb_true_r. auto.
  - simpl in He. injection He as <-. auto.
  - simpl in He. injection He as <-. auto.
Qed.

(** A failed lowering raises one of three errors: "Variable index is not
    found." when some variable of the expression is not in the id map, or
    one of the two messages for if-then-else and uninterpreted functions
    when the expression has such a node. *)
Theorem lowering_Err_cases (m : IdToIndexMap) (e : Expression) (err : CodeGenError) :
  CodeGenVisitor.CodeGen m e = Err err ->
  (err = UnboundVariable /\ vars_bound m e = false) \/
  (has_unsupported e = true /\
   (err = UnsupportedConstruct "Codegen does not support if-then-else expressions." \/
    err = UnsupportedConstruct "Codegen does not support uninterpreted functions.")).
Proof.
  intros He. destruct (lowering_Err_msg m e err He) as [->|Hu]; [|right; exact Hu].
  left. split; [reflexivity|]. destruct (vars_bound m e) eqn:Hb; [|reflexivity].
  destruct (CodeGen_bound_error_kind m e _ Hb He) as [msg Hmsg]. discriminate.
Qed.

Lemma lowering_Err_cases_witness :
  CodeGenVisitor.CodeGen (build_id_to_idx_map [var_x])
    (EDivision (EVariable var_x) (EVariable var_y)) = Err UnboundVariable /\
  ((UnboundVariable = UnboundVariable /\
    vars_bound (build_id_to_idx_map [var_x]) (EDivision (EVariable var_x) (EVariable var_y))
    = false) \/
   (has_unsupported (EDivision (EVariable var_x) (EVariable var_y)) = true /\
    (UnboundVariable =
       UnsupportedConstruct "Codegen does not support if-then-else expressions." \/
     UnboundVariable =
       UnsupportedConstruct "Codegen does not support uninterpreted functions."))).
Proof.
  assert (H : CodeGenVisitor.CodeGen (build_id_to_idx_map [var_x])
    (EDivision (EVariable var_x) (EVariable var_y)) = Err UnboundVariable)
    by (vm_compute; reflexivity).
  split; [exact H | exact (lowering_Err_cases _ _ _ H)].
Defined.

(* ------------------------------------------------------------------ *)
(** ** Variables and the parameter list *)

(** With the id map built from [parameters], a variable is emitted as
    ["p[i]"] only for an index [i] of [parameters] whose entry has the
    variable's id; the lowering fails exactly when no parameter has it. *)
Theorem variable_lowering_index (parameters : list variable) (v : variable) :
  (forall s, CodeGenVisitor.CodeGen (build_id_to_idx_map parameters) (EVariable v) = Ok s ->
   exists i p, s = "p[" ++ int_to_string (Z.of_nat i) ++ "]" /\
     parameters !! i = Some p /\ var_id p = var_id v /\ (i < length parameters)%nat) /\
  (CodeGenVisitor.CodeGen (build_id_to_idx_map parameters) (EVariable v) = Err UnboundVariable
   <-> Forall (fun p => var_id p <> var_id v) parameters).
Proof.
  cbn [CodeGenVisitor.CodeGen]. rewrite build_id_to_idx_map_lookup. split.
  - intros s Hs. destruct (list_find _ parameters) as [[i p]|] eqn:E; [|discriminate].
    cbn in Hs. injection Hs as <-. apply list_find_Some in E as (Hp & Hid & _).
    exists i, p. repeat split; [exact Hp | exact Hid | eapply lookup_lt_Some; exact Hp].
  - split.
    + intros H. destruct (list_find _ parameters) as [[i p]|] eqn:E; [discriminate|].
      apply list_find_None in E. exact E.
    + intros H. rewrite (proj2 (list_find_None _ parameters) H). reflexivity.
Qed.

Lemma variable_lowering_index_witness :
  CodeGenVisitor.CodeGen (build_id_to_idx_map [var_y; var_x]) (EVariable var_x) = Ok "p[1]" /\
  exists i p, "p[1]" = "p[" ++ int_to_string (Z.of_nat i) ++ "]" /\
    [var_y; var_x] !! i = Some p /\ var_id p = var_id var_x /\ (i < length [var_y; var_x])%nat.
Proof.
  assert (H : CodeGenVisitor.CodeGen (build_id_to_idx_map [var_y; var_x]) (EVariable var_x)
              = Ok "p[1]") by (vm_compute; reflexivity).
  split; [exact H | exact (proj1 (variable_lowering_index [var_y; var_x] var_x) _ H)].
Defined.

Lemma Forall2_Forall_impl {A B} (P P' : A -> B -> Prop) (Q : A -> Prop) l ts :
  Forall2 P l ts -> Forall Q l -> (forall t u, P t u -> Q t -> P' t u) -> Forall2 P' l ts.
Proof.
  induction 1 as [|t u l ts Htu Hrest IH]; intros HQ HR; [constructor|].
  apply Forall_cons_iff in HQ as [Ht HQ]. constructor; [exact (HR t u Htu Ht) | exact (IH HQ HR)].
Qed.

Lemma lowering_mono m1 m2 e :
  m1 ⊆ m2 -> forall s, CodeGenVisitor.CodeGen m1 e = Ok s -> CodeGenVisitor.CodeGen m2 e = Ok s.
Proof.
  intros Hsub. induction e using expression_ind'; intros s Hs.
  - simpl in Hs |- *. destruct (m1 !! var_id v) as [i|] eqn:Hi; [|discriminate].
    rewrite (lookup_weaken m1 m2 _ _ Hi Hsub). exact Hs.
  - exact Hs.
  - rewrite CodeGen_addition, rbind_Ok in Hs |- *. destruct Hs as (body & Hb & Hs).
    exists body. split; [|exact Hs].
    apply addition_terms_Ok in Hb as (ts & Hts & ->). apply addition_terms_Ok.
    exists ts. split; [|reflexivity].
    eapply Forall2_Forall_impl; [exact Hts | exact H |].
    intros t u (s_i & Hi & ->) IHt. exists s_i. split; [exact (IHt _ Hi) | reflexivity].
  - rewrite CodeGen_multiplication, rbind_Ok in Hs |- *. destruct Hs as (body & Hb & Hs).
    exists body. split; [|exact Hs].
    apply multiplication_factors_Ok in Hb as (ts & Hts & ->). apply multiplication_factors_Ok.
    exists ts. split; [|reflexivity].
    eapply Forall2_Forall_impl; [exact Hts | exact H |].
    intros t u Hu [IH1 IH2]. cbv beta in Hu |- *.
    destruct (is_one t.2); [exact (IH1 _ Hu)|].
    destruct Hu as (s1 & s2 & H1 & H2 & ->). exists s1, s2.
    split; [exact (IH1 _ H1)|]. split; [exact (IH2 _ H2) | reflexivity].
  - simpl in Hs |- *. apply rbind_Ok in Hs as (s1 & H1 & Hs).
    apply rbind_Ok in Hs as (s2 & H2 & Hs). rewrite (IHe1 _ H1), (IHe2 _ H2). exact Hs.
  - simpl in Hs |- *. apply rbind_Ok in Hs as (s1 & H1 & Hs). rewrite (IHe _ H1). exact Hs.
  - simpl in Hs |- *. apply rbind_Ok in Hs as (s1 & H1 & Hs).
    apply rbind_Ok in Hs as (s2 & H2 & Hs). rewrite (IHe1 _ H1), (IHe2 _ H2). exact Hs.
  - discriminate.
  - discriminate.
Qed.

Lemma build_id_to_idx_map_app ps qs :
  build_id_to_idx_map ps ⊆ build_id_to_idx_map (ps ++ qs).
Proof.
  apply map_subseteq_spec. intros id i. rewrite !build_id_to_idx_map_lookup.
  destruct (list_find _ ps) as [[j p]|] eqn:E; [|discriminate]. cbn. intros [= <-].
  apply list_find_Some in E as (Hp & Hid & Hbefore).
  rewrite (proj2 (list_find_Some _ (ps ++ qs) j p)); [reflexivity|].
  split; [apply lookup_app_l_Some; exact Hp|]. split; [exact Hid|].
  intros k q Hq Hk. apply (Hbefore k q); [|exact Hk].
  rewrite lookup_app_l in Hq; [exact Hq|]. apply lookup_lt_Some in Hp. lia.
Qed.

(** Appending parameters to the list leaves every successful lowering
    unchanged: the first occurrences of the ids already present keep their
    indices. *)
Theorem lowering_append_parameters (ps qs : list variable) (e : Expression) (s : string) :
  CodeGenVisitor.CodeGen (build_id_to_idx_map ps) e = Ok s ->
  CodeGenVisitor.CodeGen (build_id_to_idx_map (ps ++ qs)) e = Ok s.
Proof. apply lowering_mono, build_id_to_idx_map_app. Qed.

Lemma lowering_append_parameters_witness :
  CodeGenVisitor.CodeGen (build_id_to_idx_map [var_x; var_y])
    (EDivision (EVariable var_y) (EVariable var_x)) = Ok "(p[1] / p[0])" /\
  CodeGenVisitor.CodeGen (build_id_to_idx_map ([var_x; var_y] ++ [var_x_again; var_z]))
    (EDivision (EVariable var_y) (EVariable var_x)) = Ok "(p[1] / p[0])".
Proof.
  assert (H : CodeGenVisitor.CodeGen (build_id_to_idx_map [var_x; var_y])
    (EDivision (EVariable var_y) (EVariable var_x)) = Ok "(p[1] / p[0])")
    by (vm_compute; reflexivity).
  split; [exact H | exact (lowering_append_parameters _ _ _ _ H)].
Defined.

(* ------------------------------------------------------------------ *)
(** ** Integer constants *)

Lemma dnum_d_of_Z n : dnum (d_of_Z n) = n.
Proof. unfold dnum, d_of_Z. cbn [mant expo]. change (2 ^ Z.max 0 0) with 1. lia. Qed.

Lemma dden_d_of_Z n : dden (d_of_Z n) = 1.
Proof. reflexivity. Qed.

Lemma round_div_even_1 a : round_div_even a 1 = a.
Proof. unfold round_div_even. rewrite Z.div_1_r, Z.mod_1_r. reflexivity. Qed.

Lemma sign_int_text n :
  sign_text (d_of_Z n) ++ dec_nonneg (Z.abs n) = int_to_string n.
Proof.
  unfold sign_text, int_to_string, d_of_Z. cbn [mant].
  destruct (Z.ltb_spec n 0); [rewrite Z.abs_neq by lia | rewrite Z.abs_eq by lia]; reflexivity.
Qed.

Lemma round_div_even_mul a b : 0 < b -> round_div_even (a * b) b = a.
Proof.
  intros Hb. unfold round_div_even. rewrite Z.div_mul, Z.mod_mul by lia.
  destruct (Z.ltb_spec (2 * 0) b); [reflexivity | lia].
Qed.

Lemma sign_int_text_of c n :
  (mant c <? 0) = (n <? 0) -> sign_text c ++ dec_nonneg (Z.abs n) = int_to_string n.
Proof.
  unfold sign_text, int_to_string. intros ->.
  destruct (Z.ltb_spec n 0); [rewrite Z.abs_neq by lia | rewrite Z.abs_eq by lia]; reflexivity.
Qed.

(** A constant [c] whose value is the integer [n] is emitted by
    [std::to_string] as the integer's decimal digits followed by
    [".000000"]; when [c] is a finite double, reading that text back with
    [strtod] gives [n] exactly. *)
Theorem constant_integer_text (m : IdToIndexMap) (c : double) (n : Z) :
  dnum c = n * dden c ->
  CodeGenVisitor.CodeGen m (EConstant c) = Ok (int_to_string n ++ ".000000") /\
  (is_finite_double c = true ->
   forall v, strtod_rel (int_to_string n ++ ".000000") v ->
     (double_value v == inject_Z n)%Q).
Proof.
  intros Hn. pose proof (dden_pos c) as Hb.
  assert (Habs : Z.abs (dnum c) * 10 ^ 6 = (Z.abs n * 10 ^ 6) * dden c).
  { rewrite Hn, Z.abs_mul, (Z.abs_eq (dden c)) by lia. ring. }
  assert (Hsign : (mant c <? 0) = (n <? 0)).
  { destruct (dnum_sign c) as [Hneg Hpos]. unfold dnum in Hn.
    assert (0 < 2 ^ Z.max (expo c) 0) by (apply Z.pow_pos_nonneg; lia).
    destruct (Z.ltb_spec (mant c) 0), (Z.ltb_spec n 0); try reflexivity; exfalso; nia. }
  assert (Htext : to_string_double c = int_to_string n ++ ".000000").
  { unfold to_string_double. rewrite Habs, round_div_even_mul by exact Hb.
    rewrite Z.div_mul, Z.mod_mul by lia.
    change (fixed_digits 6 0) with "000000".
    rewrite <- str_app_assoc, (sign_int_text_of c n Hsign). reflexivity. }
  split; [cbn [CodeGenVisitor.CodeGen]; rewrite Htext; reflexivity|].
  intros Hfin v Hv. rewrite <- Htext in Hv.
  destruct (to_string_double_error c) as (q & Hp & _ & He).
  assert (Hq : (q == double_value c)%Q).
  { apply He. rewrite Habs. apply Z.mod_mul. lia. }
  destruct Hv as (q' & Hp' & _ & Hnear). rewrite Hp in Hp'. injection Hp' as <-.
  specialize (Hnear _ Hfin).
  assert (Hval : (double_value c == inject_Z n)%Q).
  { unfold double_value, Qeq. cbn [Qnum Qden inject_Z].
    rewrite Z2Pos.id by exact Hb. rewrite Hn. ring. }
  assert (Hc : (Qabs (double_value c - q) <= 0)%Q)
    by (apply Qabs_Qle_condition; lra).
  assert (Hv0 : (Qabs (double_value v - q) <= 0)%Q) by (eapply Qle_trans; eauto).
  apply Qabs_Qle_condition in Hv0. lra.
Qed.

Lemma constant_integer_text_witness :
  dnum (mk_double 1 60) = 2 ^ 60 * dden (mk_double 1 60) /\
  is_finite_double (mk_double 1 60) = true /\
  CodeGenVisitor.CodeGen (build_id_to_idx_map []) (EConstant (mk_double 1 60)) =
    Ok (int_to_string (2 ^ 60) ++ ".000000") /\
  (forall v, strtod_rel (int_to_string (2 ^ 60) ++ ".000000") v ->
     (double_value v == inject_Z (2 ^ 60))%Q).
Proof.
  assert (Hn : dnum (mk_double 1 60) = 2 ^ 60 * dden (mk_double 1 60)) by reflexivity.
  assert (Hf : is_finite_double (mk_double 1 60) = true) by reflexivity.
  split; [exact Hn|]. split; [exact Hf|].
  split; [exact (proj1 (constant_integer_text (build_id_to_idx_map []) _ _ Hn))|].
  exact (proj2 (constant_integer_text (build_id_to_idx_map []) _ _ Hn) Hf).
Defined.

Lemma dec_aux_length f n acc :
  0 < n < 2 ^ Z.of_nat f ->
  exists k, String.length (dec_aux f n acc) = (k + String.length acc)%nat /\
    (1 <= k)%nat /\ 10 ^ (Z.of_nat k - 1) <= n < 10 ^ Z.of_nat k.
Proof.
  revert n acc. induction f as [|f IH]; intros n acc Hn; [simpl in Hn; lia|].
  cbn [dec_aux]. pose proof (Z.div_mod n 10 ltac:(lia)) as Hdm.
  pose proof (Z.mod_pos_bound n 10 ltac:(lia)) as Hmb.
  destruct (Z.eqb_spec (n / 10) 0) as [H0|H0].
  - exists 1%nat. cbn [String.length]. split; [lia|]. split; [lia|].
    change (10 ^ (Z.of_nat 1 - 1)) with 1. change (10 ^ Z.of_nat 1) with 10. lia.
  - assert (Hq : 0 < n / 10 < 2 ^ Z.of_nat f).
    { pose proof (Z.div_pos n 10 ltac:(lia) ltac:(lia)).
      rewrite Nat2Z.inj_succ, Z.pow_succ_r in Hn by lia. lia. }
    destruct (IH (n / 10) (String (digit_char (n mod 10)) acc) Hq) as (k & Hl & Hk & Hb).
    exists (S k). rewrite Hl. cbn [String.length]. split; [lia|]. split; [lia|].
    rewrite Nat2Z.inj_succ.
    replace (Z.succ (Z.of_nat k) - 1) with (Z.of_nat k) by lia.
    rewrite Z.pow_succ_r by lia.
    assert (10 ^ Z.of_nat k = 10 * 10 ^ (Z.of_nat k - 1)).
    { rewrite <- Z.pow_succ_r by lia. f_equal. lia. }
    lia.
Qed.

Lemma dec_nonneg_length n : 0 < n ->
  exists k, String.length (dec_nonneg n) = k /\ (1 <= k)%nat /\
    10 ^ (Z.of_nat k - 1) <= n < 10 ^ Z.of_nat k.
Proof.
  intros Hn. unfold dec_nonneg.
  destruct (dec_aux_length (S (Z.to_nat (Z.log2 n))) n "") as (k & Hl & Hk & Hb).
  - split; [exact Hn|]. rewrite Nat2Z.inj_succ, Z2Nat.id by apply Z.log2_nonneg.
    apply Z.log2_spec. exact Hn.
  - exists k. cbn [String.length] in Hl. split; [lia | auto].
Qed.

Lemma strip_app_zeros a b :
  strip_trailing_zeros b = "" -> strip_trailing_zeros (a ++ b) = strip_trailing_zeros a.
Proof.
  induction a as [|c a IH]; intros Hb; [exact Hb|].
  cbn [String.append strip_trailing_zeros]. rewrite IH by exact Hb. reflexivity.
Qed.

Lemma strip_fixed_digits_zero k : strip_trailing_zeros (fixed_digits k 0) = "".
Proof.
  induction k as [|k IH]; [reflexivity|]. cbn [fixed_digits].
  change (0 / 10) with 0. change (0 mod 10) with 0.
  rewrite strip_app_zeros by reflexivity. exact IH.
Qed.

(** [ostream << c] (the constant and the coefficients of an addition or a
    multiplication) prints an integer-valued double [n] with [|n| < 10^6]
    as the integer itself: no decimal point, no exponent. *)
Theorem fmt_g_integer (n : Z) : Z.abs n < 10 ^ 6 -> fmt_g (d_of_Z n) = int_to_string n.
Proof.
  intros Hn. unfold fmt_g. cbv zeta. rewrite dnum_d_of_Z, dden_d_of_Z.
  destruct (Z.eqb_spec (Z.abs n) 0) as [H0|H0].
  { assert (n = 0) as -> by lia. reflexivity. }
  destruct (dec_nonneg_length (Z.abs n)) as (k & Hk & Hk1 & Hlo & Hhi); [lia|].
  assert (Hfl : floor_log10 (Z.abs n) 1 = Z.of_nat k - 1).
  { unfold floor_log10. rewrite Hk. change (String.length (dec_nonneg 1)) with 1%nat.
    unfold pow10_le. replace (Z.of_nat k - Z.of_nat 1) with (Z.of_nat k - 1) by lia.
    destruct (Z.leb_spec 0 (Z.of_nat k - 1)); [|lia]. rewrite Z.mul_1_r.
    destruct (Z.leb_spec (10 ^ (Z.of_nat k - 1)) (Z.abs n)); [reflexivity|lia]. }
  rewrite Hfl.
  assert (Hk6 : Z.of_nat k <= 6).
  { destruct (Z.le_gt_cases (Z.of_nat k) 6) as [|Hgt]; [assumption|].
    assert (10 ^ 6 <= 10 ^ (Z.of_nat k - 1)) by (apply Z.pow_le_mono_r; lia). lia. }
  destruct (Z.leb_spec 0 (5 - (Z.of_nat k - 1))) as [Hj|]; [|lia].
  rewrite round_div_even_1.
  set (j := 5 - (Z.of_nat k - 1)) in *.
  assert (Hpj : 0 < 10 ^ j) by (apply Z.pow_pos_nonneg; lia).
  assert (Hlt : Z.abs n * 10 ^ j < 10 ^ 6).
  { replace 6 with (Z.of_nat k + j) by (unfold j; lia). rewrite Z.pow_add_r by lia. nia. }
  destruct (Z.eqb_spec (Z.abs n * 10 ^ j) (10 ^ 6)) as [|_]; [lia|].
  cbv beta iota.
  destruct (Z.leb_spec (-4) (Z.of_nat k - 1)); [|lia].
  destruct (Z.ltb_spec (Z.of_nat k - 1) 6); [|lia]. cbn [andb].
  rewrite Z.div_mul, Z.mod_mul by lia. rewrite strip_fixed_digits_zero.
  change (point_frac "") with "". rewrite str_app_nil. apply sign_int_text.
Qed.

Lemma fmt_g_integer_witness :
  Z.abs (-420) < 10 ^ 6 /\ fmt_g (d_of_Z (-420)) = "-420".
Proof. split; [lia | exact (fmt_g_integer (-420) ltac:(lia))]. Defined.

(* ------------------------------------------------------------------ *)
(** ** A batch request stops at the first entry that fails *)

(** When the entries before [d] lower to [ss] and [d] fails with [err], a
    batch request fails with [err] and leaves in the sink the header, the
    lines of the earlier entries and the start ["    m[k] = "] of the line
    of [d]; the later entries, the footer and the meta are not written. *)
Theorem CodeGenBatch_first_error (function_name : string) (parameters : list variable)
    (pre : list Expression) (d : Expression) (post : list Expression) (ss : list string)
    (err : CodeGenError) (rows cols : Z) (os : string) :
  Forall2 (fun d s => CodeGenVisitor.CodeGen (build_id_to_idx_map parameters) d = Ok s) pre ss ->
  CodeGenVisitor.CodeGen (build_id_to_idx_map parameters) d = Err err ->
  CodeGenBatch function_name parameters (pre ++ d :: post) rows cols os =
  (os ++ internal.data_header_text function_name ++
   foldr String.append "" (imap internal.assignment_text ss) ++
   "    m[" ++ int_to_string (Z.of_nat (length pre)) ++ "] = ",
   Err err).
Proof.
  intros Hpre Hd. cbv [CodeGenBatch internal.CodeGenData sink_bind write].
  rewrite (emit_assignments_app _ _ _ _ 0 _ Hpre).
  cbn [internal.emit_assignments Nat.add]. cbv [sink_bind write lift]. rewrite Hd.
  rewrite !str_app_assoc. reflexivity.
Qed.

Lemma CodeGenBatch_first_error_witness :
  Forall2 (fun d s => CodeGenVisitor.CodeGen (build_id_to_idx_map [var_x]) d = Ok s)
    [EVariable var_x] ["p[0]"] /\
  CodeGenVisitor.CodeGen (build_id_to_idx_map [var_x]) (EVariable var_y) = Err UnboundVariable /\
  CodeGenBatch "f" [var_x] ([EVariable var_x] ++ EVariable var_y :: [EVariable var_x]) 3 1 "" =
  ("" ++ internal.data_header_text "f" ++
   foldr String.append "" (imap internal.assignment_text ["p[0]"]) ++
   "    m[" ++ int_to_string (Z.of_nat (length [EVariable var_x])) ++ "] = ",
   Err UnboundVariable).
Proof.
  assert (H1 : Forall2 (fun d s => CodeGenVisitor.CodeGen (build_id_to_idx_map [var_x]) d = Ok s)
                 [EVariable var_x] ["p[0]"]).
  { constructor; [vm_compute; reflexivity | constructor]. }
  assert (H2 : CodeGenVisitor.CodeGen (build_id_to_idx_map [var_x]) (EVariable var_y)
               = Err UnboundVariable) by (vm_compute; reflexivity).
  split; [exact H1|]. split; [exact H2|].
  exact (CodeGenBatch_first_error "f" [var_x] _ _ _ _ _ 3 1 "" H1 H2).
Defined.
